(** * TripGenie: validation layer, trip archive, geocoder and planner

    A shallow embedding of the Python sources
      - utils/validators.py          (TripValidator)
      - services/storage_service.py  (TripRecord, TripStorage)
      - services/location_service.py (Location, LocationService)
      - services/agent_service.py    (TripGenieAgent)
    followed by the properties of the specification that concern them.

    Conventions of the embedding:
      - a Python [str] is a list of Unicode code points, so that [len],
        slicing and comparison are those of Python;
      - dynamically typed values are the inductive [scalar];
      - a [dict] with string keys is a [gmap string _];
      - a function that may raise returns a [result];
      - the file system, the clock, the HTTP transport and the chat model
        are explicit state or explicit parameters. *)

From Stdlib Require Import ZArith NArith Ascii String List Bool Lia Permutation Sorted.
From stdpp Require Import base option list gmap strings.
Import ListNotations.

Local Open Scope Z_scope.

(* ===================================================================== *)
(** * Python values                                                       *)
(* ===================================================================== *)

Module Py.

(** A [str]: its code points, in order. *)
Definition pystr : Type := list N.

(** The code point of an ASCII character of the source text. *)
Definition ch (a : ascii) : N := N_of_ascii a.

(** A string literal of the source (all the literals used are ASCII). *)
Definition lit (s : string) : pystr := map N_of_ascii (list_ascii_of_string s).

Definition str_eqb (a b : pystr) : bool := bool_decide (a = b).

(** [len(s)] as a Python int. *)
Definition len {A} (l : list A) : Z := Z.of_nat (length l).

(** [needle in hay] for strings. *)
Fixpoint starts_with (needle hay : pystr) : bool :=
  match needle, hay with
  | [], _ => true
  | _ :: _, [] => false
  | a :: needle', b :: hay' => N.eqb a b && starts_with needle' hay'
  end.

Fixpoint contains (needle hay : pystr) : bool :=
  starts_with needle hay ||
  match hay with
  | [] => false
  | _ :: hay' => contains needle hay'
  end.

(** [sep.join(parts)]. *)
Fixpoint join (sep : pystr) (parts : list pystr) : pystr :=
  match parts with
  | [] => []
  | [p] => p
  | p :: rest => p ++ sep ++ join sep rest
  end.

(** [str.isspace] on one code point: the white space table of CPython
    (ASCII 09-0D, 1C-1F, 20, then 85, A0, 1680, 2000-200A, 2028, 2029,
    202F, 205F, 3000). *)
Definition isspace (c : N) : bool :=
  ((9 <=? c) && (c <=? 13) || (28 <=? c) && (c <=? 32)
   || (c =? 133) || (c =? 160) || (c =? 5760)
   || (8192 <=? c) && (c <=? 8202)
   || (c =? 8232) || (c =? 8233) || (c =? 8239) || (c =? 8287)
   || (c =? 12288))%N.

Fixpoint lstrip (s : pystr) : pystr :=
  match s with
  | c :: s' => if isspace c then lstrip s' else s
  | [] => []
  end.

Definition rstrip (s : pystr) : pystr := rev (lstrip (rev s)).

(** [s.strip()]. *)
Definition strip (s : pystr) : pystr := rstrip (lstrip s).

(** [s[:n]] for a Python int [n]: a negative bound counts from the end. *)
Definition slice_to {A} (l : list A) (n : Z) : list A :=
  if 0 <=? n then take (Z.to_nat n) l
  else take (Z.to_nat (len l + n)) l.

(** Lexicographic [<] on strings, by code point. *)
Fixpoint str_ltb (a b : pystr) : bool :=
  match a, b with
  | _, [] => false
  | [], _ :: _ => true
  | x :: a', y :: b' => (x <? y)%N || (x =? y)%N && str_ltb a' b'
  end.

(** The dynamically typed values that occur as dictionary values:
    [None], [bool], [int] and [str].  (Floats and nested containers as
    field values are outside the model.) *)
Inductive scalar : Type :=
  | SNone
  | SBool (b : bool)
  | SInt (z : Z)
  | SStr (s : pystr).

(** Truth value of [if v:] / [not v]. *)
Definition truthy (v : scalar) : bool :=
  match v with
  | SNone => false
  | SBool b => b
  | SInt z => negb (z =? 0)
  | SStr s => match s with [] => false | _ => true end
  end.

(** [a or b]. *)
Definition py_or (a b : scalar) : scalar := if truthy a then a else b.

(** [isinstance(v, int)]; [bool] is a subclass of [int]. *)
Definition as_int (v : scalar) : option Z :=
  match v with
  | SInt z => Some z
  | SBool b => Some (if b then 1 else 0)
  | _ => None
  end.

(** [v == s] for a [str] [s]. *)
Definition eq_str (v : scalar) (s : pystr) : bool :=
  match v with
  | SStr t => str_eqb t s
  | _ => false
  end.

(** [a < b]; [None] stands for the [TypeError] of unorderable operands. *)
Definition lt (a b : scalar) : option bool :=
  match a, b with
  | SStr x, SStr y => Some (str_ltb x y)
  | SNone, _ | _, SNone => None
  | SStr _, _ | _, SStr _ => None
  | _, _ =>
      match as_int a, as_int b with
      | Some x, Some y => Some (x <? y)
      | _, _ => None
      end
  end.

(** A [dict] with string keys and scalar values. *)
Abbreviation pydict := (gmap string scalar).

(** [d.get(k, default)] and [d.get(k)]. *)
Definition get_or (d : pydict) (k : string) (default : scalar) : scalar :=
  match d !! k with
  | Some v => v
  | None => default
  end.

Definition get (d : pydict) (k : string) : scalar := get_or d k SNone.

(** Exceptions that the modelled code raises or lets through. *)
Inductive exn : Type :=
  | ValidationError (msg : pystr)
  | AttributeError
  | TypeError.

Inductive result (A : Type) : Type :=
  | Ok (a : A)
  | Raise (e : exn).
Arguments Ok {A} a.
Arguments Raise {A} e.

Definition bind {A B} (r : result A) (k : A -> result B) : result B :=
  match r with
  | Ok a => k a
  | Raise e => Raise e
  end.

End Py.

Import Py.

Notation "x <- r ;; k" := (Py.bind r (fun x => k))
  (at level 100, r at next level, right associativity).

(* ===================================================================== *)
(** * utils/validators.py                                                 *)
(* ===================================================================== *)

(** ** The two regular expressions of [sanitize_text_input]

    [re.sub(pattern, '', text)] scans [text] from the left; where the
    pattern matches, the match is dropped and the scan resumes behind it,
    elsewhere one character is copied.  Neither pattern matches the empty
    string.  A pattern is given by [match_len], the length of its match at
    the start of the text, if any. *)

Module Re.

Fixpoint sub_empty (match_len : pystr -> option nat) (skip : nat) (text : pystr)
  : pystr :=
  match text with
  | [] => []
  | c :: rest =>
      match skip with
      | S k => sub_empty match_len k rest
      | O =>
          match match_len text with
          | Some (S k) => sub_empty match_len k rest
          | _ => c :: sub_empty match_len 0 rest
          end
      end
  end.

(** [re.search(pattern, text) is not None]. *)
Fixpoint search (match_len : pystr -> option nat) (text : pystr) : bool :=
  match text with
  | [] => false
  | _ :: rest =>
      match match_len text with
      | Some _ => true
      | None => search match_len rest
      end
  end.

Definition is_gt (c : N) : bool := (c =? ch ">")%N.

(** The longest prefix of non-[>] characters: the greedy [[^>]+]. *)
Fixpoint not_gt_run (text : pystr) : nat :=
  match text with
  | c :: rest => if is_gt c then O else S (not_gt_run rest)
  | [] => O
  end.

(** [<[^>]+>]: a [<], one or more characters other than [>], a [>]. *)
Definition tag_len (text : pystr) : option nat :=
  match text with
  | c :: rest =>
      if (c =? ch "<")%N then
        match not_gt_run rest with
        | O => None
        | S n => match drop (S n) rest with
                 | _ :: _ => Some (S (S (S n)))
                 | [] => None
                 end
        end
      else None
  | [] => None
  end.

(** A literal pattern character under [re.IGNORECASE] (Unicode matching);
    the letters of both patterns are lower case.  Such a letter matches
    both of its cases, [i] also U+0130 and U+0131, [s] also U+017F, [k]
    also U+212A; any other character matches itself. *)
Definition ci_eq (p c : N) : bool :=
  ((c =? p)
   || (97 <=? p) && (p <=? 122) && (c =? p - 32)
   || (p =? 105) && ((c =? 304) || (c =? 305))
   || (p =? 115) && (c =? 383)
   || (p =? 107) && (c =? 8490))%N.

Fixpoint starts_with_ci (pat text : pystr) : bool :=
  match pat, text with
  | [], _ => true
  | _ :: _, [] => false
  | p :: pat', c :: text' => ci_eq p c && starts_with_ci pat' text'
  end.

(** Index of the first occurrence of a non-empty [pat], ignoring case. *)
Fixpoint find_ci (pat text : pystr) : option nat :=
  match text with
  | [] => None
  | _ :: rest =>
      if starts_with_ci pat text then Some O
      else match find_ci pat rest with
           | Some j => Some (S j)
           | None => None
           end
  end.

Definition script_open : pystr := lit "<script".
Definition script_close : pystr := lit "</script>".

(** [<script.*?</script>] with [DOTALL | IGNORECASE]: the opening text,
    then as few characters as possible up to the first closing text. *)
Definition script_len (text : pystr) : option nat :=
  if starts_with_ci script_open text then
    match find_ci script_close (drop (length script_open) text) with
    | Some j => Some (length script_open + j + length script_close)%nat
    | None => None
    end
  else None.

End Re.

Module TripValidator.

Definition suspicious (c : N) : bool :=
  existsb (N.eqb c) (lit "<>{}[]\").

Definition ELLIPSIS : pystr := lit "...".

(** [max_length: int = 500]. *)
Definition DEFAULT_MAX_LENGTH : Z := 500.

Definition validate_location (location : scalar) (field_name : option pystr)
  : result bool :=
  let field_name := default (lit "Location") field_name in
  if negb (truthy location) then
    Raise (ValidationError (field_name ++ lit " cannot be empty"))
  else
    match location with
    | SStr s =>
        if negb (truthy (SStr (strip s))) then
          Raise (ValidationError (field_name ++ lit " cannot be empty"))
        else
          let location := strip s in
          if len location <? 2 then
            Raise (ValidationError (field_name ++ lit " must be at least 2 characters"))
          else if len location >? 100 then
            Raise (ValidationError
                     (field_name ++ lit " name is too long (max 100 characters)"))
          else if existsb suspicious location then
            Raise (ValidationError (field_name ++ lit " contains invalid characters"))
          else Ok true
    | _ => Raise AttributeError
    end.

Definition validate_people_count (count : scalar) : result bool :=
  match as_int count with
  | None => Raise (ValidationError (lit "Number of travelers must be a number"))
  | Some count =>
      if count <? 1 then
        Raise (ValidationError (lit "At least 1 traveler is required"))
      else if count >? 50 then
        Raise (ValidationError (lit "Maximum 50 travelers allowed"))
      else Ok true
  end.

Definition validate_days (days : scalar) : result bool :=
  match as_int days with
  | None => Raise (ValidationError (lit "Trip duration must be a number"))
  | Some days =>
      if days <? 1 then
        Raise (ValidationError (lit "Trip must be at least 1 day"))
      else if days >? 365 then
        Raise (ValidationError (lit "Maximum trip duration is 365 days"))
      else Ok true
  end.

Definition sanitize_text_input (text : scalar) (max_length : option Z)
  : result pystr :=
  let max_length := default DEFAULT_MAX_LENGTH max_length in
  if negb (truthy text) then Ok []
  else
    match text with
    | SStr text =>
        let text := Re.sub_empty Re.tag_len 0 text in
        let text := Re.sub_empty Re.script_len 0 text in
        let text := strip text in
        if len text >? max_length then Ok (slice_to text max_length ++ ELLIPSIS)
        else Ok text
    | _ => Raise TypeError
    end.

Section WithUnicode.

(** [str.lower] of the runtime (the Unicode case mapping). *)
Variable lower : pystr -> pystr.

Definition validate_same_location (from_loc to_loc : scalar) : result bool :=
  match from_loc, to_loc with
  | SStr from_loc, SStr to_loc =>
      if str_eqb (strip (lower from_loc)) (strip (lower to_loc)) then
        Raise (ValidationError (lit "Departure and destination cannot be the same"))
      else Ok true
  | _, _ => Raise AttributeError
  end.

(** [try: check except ValidationError as e: errors.append(str(e))];
    any other exception is not caught. *)
Definition collect (errors : list pystr) (check : result bool)
  : result (list pystr) :=
  match check with
  | Ok _ => Ok errors
  | Raise (ValidationError msg) => Ok (errors ++ [msg])
  | Raise e => Raise e
  end.

(** The dictionary is updated in place: the first component is the
    caller's dictionary when the call ends, the second what the call
    returns or raises. *)
Definition validate_complete_trip_input (trip_data : pydict)
  : pydict * result pydict :=
  let checks : result (list pystr) :=
    errors <- collect []
      (validate_location (get_or trip_data "from_city" (SStr []))
                         (Some (lit "Departure location"))) ;;
    errors <- collect errors
      (validate_location (get_or trip_data "to_city" (SStr []))
                         (Some (lit "Destination"))) ;;
    errors <-
      (if truthy (get trip_data "from_city") && truthy (get trip_data "to_city")
       then collect errors
              (validate_same_location (get trip_data "from_city")
                                      (get trip_data "to_city"))
       else Ok errors) ;;
    errors <- collect errors
      (validate_people_count (get_or trip_data "people" (SInt 0))) ;;
    collect errors (validate_days (get_or trip_data "days" (SInt 0)))
  in
  match checks with
  | Raise e => (trip_data, Raise e)
  | Ok errors =>
      let sanitized : result pydict :=
        match trip_data !! "notes" with
        | Some notes =>
            notes <- sanitize_text_input notes (Some 1000) ;;
            Ok (<["notes" := SStr notes]> trip_data)
        | None => Ok trip_data
        end in
      match sanitized with
      | Raise e => (trip_data, Raise e)
      | Ok trip_data =>
          match errors with
          | [] => (trip_data, Ok trip_data)
          | _ :: _ => (trip_data, Raise (ValidationError (join (lit (String "010" EmptyString)) errors)))
          end
      end
  end.

End WithUnicode.

(** ASCII case folding, the restriction of [str.lower] to ASCII text. *)
Definition ascii_lower (s : pystr) : pystr :=
  map (fun c => if (65 <=? c) && (c <=? 90) then c + 32 else c)%N s.

End TripValidator.

(* ===================================================================== *)
(** * services/storage_service.py                                         *)
(* ===================================================================== *)

(** ** The clock: [datetime.now()] and its two renderings *)

Module Clock.

Record datetime : Type := {
  year : N; month : N; day : N;
  hour : N; minute : N; second : N;
  microsecond : N
}.

Definition digit (n : N) : N := (ch "0" + n mod 10)%N.

(** The last [width] decimal digits of [n], zero padded. *)
Fixpoint zero_pad (width : nat) (n : N) : pystr :=
  match width with
  | O => []
  | S w => zero_pad w (n / 10) ++ [digit n]
  end.

(** [now.strftime("%Y%m%d_%H%M%S")]. *)
Definition strftime_id (now : datetime) : pystr :=
  zero_pad 4 (year now) ++ zero_pad 2 (month now) ++ zero_pad 2 (day now)
  ++ lit "_"
  ++ zero_pad 2 (hour now) ++ zero_pad 2 (minute now) ++ zero_pad 2 (second now).

(** [now.isoformat()]: the fraction is printed unless it is zero. *)
Definition isoformat (now : datetime) : pystr :=
  zero_pad 4 (year now) ++ lit "-" ++ zero_pad 2 (month now) ++ lit "-"
  ++ zero_pad 2 (day now) ++ lit "T"
  ++ zero_pad 2 (hour now) ++ lit ":" ++ zero_pad 2 (minute now) ++ lit ":"
  ++ zero_pad 2 (second now)
  ++ (if (microsecond now =? 0)%N then []
      else lit "." ++ zero_pad 6 (microsecond now)).

End Clock.

Module TripRecord.

(** The dataclass.  Its annotations ([str], [int]) are not enforced by
    Python, and [from_dict] stores whatever the dictionary holds, so the
    fields are dynamically typed. *)
Record t : Type := {
  id : scalar;
  timestamp : scalar;
  from_city : scalar;
  to_city : scalar;
  days : scalar;
  people : scalar;
  group_type : scalar;
  trip_plan : scalar
}.

(** [asdict(self)]. *)
Definition to_dict (r : t) : pydict :=
  <["id" := id r]> (<["timestamp" := timestamp r]> (<["from_city" := from_city r]>
  (<["to_city" := to_city r]> (<["days" := days r]> (<["people" := people r]>
  (<["group_type" := group_type r]> (<["trip_plan" := trip_plan r]> ∅))))))).

(** The constructor applied to the unpacked dictionary: every field must
    be given and no other keyword is accepted; [None] stands for the [TypeError] raised otherwise. *)
Definition from_dict (data : pydict) : option t :=
  id ← data !! "id";
  timestamp ← data !! "timestamp";
  from_city ← data !! "from_city";
  to_city ← data !! "to_city";
  days ← data !! "days";
  people ← data !! "people";
  group_type ← data !! "group_type";
  trip_plan ← data !! "trip_plan";
  if bool_decide (size data = 8%nat) then
    Some {| id := id; timestamp := timestamp; from_city := from_city;
            to_city := to_city; days := days; people := people;
            group_type := group_type; trip_plan := trip_plan |}
  else None.

End TripRecord.

Module TripStorage.

(** ** The backing file *)

(** One element of a decoded JSON array: an object, or anything else
    (a number, a string, [null], an array), on which [.get] raises. *)
Inductive entry : Type :=
  | EDict (d : pydict)
  | EOther.

(** What [json.load] returns: a list, or any other JSON value. *)
Inductive decoded : Type :=
  | JList (l : list entry)
  | JOther.

Inductive file_content : Type :=
  | Unreadable                 (* [open] raises: missing file, permissions *)
  | Undecodable                (* [json.load] raises [JSONDecodeError] *)
  | Decoded (j : decoded).

(** The state of the archive: the file and whether it can be opened for
    writing. *)
Record storage : Type := {
  content : file_content;
  writable : bool
}.

Definition _read_data (st : storage) : decoded :=
  match content st with
  | Decoded j => j
  | Undecodable => JList []
  | Unreadable => JList []
  end.

(** [open] fails on a file that cannot be written, and the file is left
    as it is.  A failure of [json.dump] behind a successful [open] (text
    that cannot be encoded) is not modelled. *)
Definition _write_data (data : list entry) (st : storage) : bool * storage :=
  if writable st
  then (true, {| content := Decoded (JList data); writable := writable st |})
  else (false, st).

(** [__init__]: the file is created, holding an empty list, if absent. *)
Definition init (exists_ : bool) (st : storage) : storage :=
  if exists_ then st else snd (_write_data [] st).

(** The record that [save_trip] builds; [now_id] and [now_stamp] are the
    two successive readings of the clock. *)
Definition new_record (now_id now_stamp : Clock.datetime)
    (from_city to_city : pystr) (days people : Z) (group_type trip_plan : pystr)
  : TripRecord.t :=
  {| TripRecord.id := SStr (Clock.strftime_id now_id);
     TripRecord.timestamp := SStr (Clock.isoformat now_stamp);
     TripRecord.from_city := SStr from_city;
     TripRecord.to_city := SStr to_city;
     TripRecord.days := SInt days;
     TripRecord.people := SInt people;
     TripRecord.group_type := SStr group_type;
     TripRecord.trip_plan := SStr trip_plan |}.

Definition save_trip (now_id now_stamp : Clock.datetime)
    (from_city to_city : pystr) (days people : Z) (group_type trip_plan : pystr)
    (st : storage) : option pystr * storage :=
  let trip_id := Clock.strftime_id now_id in
  let trip_record :=
    new_record now_id now_stamp from_city to_city days people group_type trip_plan in
  match _read_data st with
  | JList data =>
      let data := data ++ [EDict (TripRecord.to_dict trip_record)] in
      match _write_data data st with
      | (true, st') => (Some trip_id, st')
      | (false, st') => (None, st')
      end
  | JOther => (None, st)           (* [data.append] raises, caught *)
  end.

(** The loop of [get_trip]; [None] is both "not found" and a caught
    exception, as in the source. *)
Fixpoint scan (trip_id : pystr) (data : list entry) : option TripRecord.t :=
  match data with
  | [] => None
  | EOther :: _ => None              (* [record.get] raises, caught *)
  | EDict record :: rest =>
      if eq_str (get record "id") trip_id then TripRecord.from_dict record
      else scan trip_id rest
  end.

Definition get_trip (trip_id : pystr) (st : storage) : option TripRecord.t :=
  match _read_data st with
  | JList data => scan trip_id data
  | JOther => None
  end.

(** [x.get('timestamp', '')] for every element, in order. *)
Fixpoint sort_keys (data : list entry) : option (list (scalar * pydict)) :=
  match data with
  | [] => Some []
  | EOther :: _ => None
  | EDict x :: rest =>
      keyed ← sort_keys rest;
      Some ((get_or x "timestamp" (SStr []), x) :: keyed)
  end.

(** [list.sort(key=..., reverse=True)]: a stable sort into descending
    order; [None] is the [TypeError] of a failed comparison. *)
Fixpoint insert_desc (x : scalar * pydict) (sorted : list (scalar * pydict))
  : option (list (scalar * pydict)) :=
  match sorted with
  | [] => Some [x]
  | y :: rest =>
      below ← lt (fst x) (fst y);
      if below : bool then rest' ← insert_desc x rest; Some (y :: rest')
      else Some (x :: y :: rest)
  end.

Fixpoint sort_desc (keyed : list (scalar * pydict))
  : option (list (scalar * pydict)) :=
  match keyed with
  | [] => Some []
  | x :: rest => sorted ← sort_desc rest; insert_desc x sorted
  end.

(** [limit] is [None] or an int; [if limit:] is false for both [None]
    and [0]. *)
Definition limit_given (limit : option Z) : option Z :=
  match limit with
  | Some n => if n =? 0 then None else Some n
  | None => None
  end.

Definition get_all_trips (limit : option Z) (st : storage) : list TripRecord.t :=
  match _read_data st with
  | JOther => []                     (* [data.sort] raises, caught *)
  | JList data =>
      let sorted :=
        keyed ← sort_keys data;
        sorted ← sort_desc keyed;
        Some (map snd sorted) in
      match sorted with
      | None => []
      | Some data =>
          let data :=
            match limit_given limit with
            | Some n => slice_to data n
            | None => data
            end in
          match mapM TripRecord.from_dict data with
          | Some records => records
          | None => []
          end
      end
  end.

(** The list comprehension of [delete_trip]. *)
Fixpoint without (trip_id : pystr) (data : list entry) : option (list entry) :=
  match data with
  | [] => Some []
  | EOther :: _ => None
  | EDict record :: rest =>
      rest' ← without trip_id rest;
      if negb (eq_str (get record "id") trip_id)
      then Some (EDict record :: rest') else Some rest'
  end.

Definition delete_trip (trip_id : pystr) (st : storage) : bool * storage :=
  match _read_data st with
  | JOther => (false, st)
  | JList data =>
      let original_length := len data in
      match without trip_id data with
      | None => (false, st)
      | Some data =>
          if len data <? original_length then
            match _write_data data st with
            | (true, st') => (true, st')
            | (false, st') => (false, st')
            end
          else (false, st)
      end
  end.


End TripStorage.

(* ===================================================================== *)
(** * services/location_service.py                                        *)
(* ===================================================================== *)

Module Location.

(** A value of a raw Nominatim result: a scalar, or a nested object such
    as the [address]. *)
Inductive raw_value : Type :=
  | RScalar (v : scalar)
  | RDict (d : pydict).

Abbreviation raw := (gmap string raw_value).

Section WithFloat.

(** Python floats and [float(v)]; [None] is the exception raised for a
    value that does not convert. *)
Variable pyfloat : Type.
Variable to_float : scalar -> option pyfloat.

Record t : Type := {
  name : raw_value;
  label : raw_value;
  lat : pyfloat;
  lon : pyfloat;
  city : scalar;
  state : scalar;
  country : scalar
}.

Definition float (v : raw_value) : option pyfloat :=
  match v with
  | RScalar s => to_float s
  | RDict _ => None
  end.

(** [None] stands for any exception raised while the record is built. *)
Definition from_nominatim (data : raw) : option t :=
  let address := default (RDict ∅) (data !! "address") in
  let display_name := default (RScalar (SStr [])) (data !! "display_name") in
  lat ← float (default (RScalar (SInt 0)) (data !! "lat"));
  lon ← float (default (RScalar (SInt 0)) (data !! "lon"));
  match address with
  | RDict address =>
      Some {| name := display_name;
              label := display_name;
              lat := lat;
              lon := lon;
              city := py_or (get address "city")
                            (py_or (get address "town") (get address "village"));
              state := get address "state";
              country := get address "country" |}
  | RScalar _ => None               (* [address.get] raises *)
  end.

End WithFloat.

Arguments name {pyfloat} _.
Arguments label {pyfloat} _.
Arguments lat {pyfloat} _.
Arguments lon {pyfloat} _.
Arguments city {pyfloat} _.
Arguments state {pyfloat} _.
Arguments country {pyfloat} _.

End Location.

Module LocationService.

(** One [requests.get] call as the transport sees it. *)
Record request : Type := {
  url : pystr;
  param_q : pystr;
  param_limit : Z;
  user_agent : pystr;
  timeout : Z
}.

(** What the transport answers: the three [except] clauses of [search],
    or a response whose body decodes to a list of objects ([Some]) or to
    something else ([None]). *)
Inductive response : Type :=
  | TimedOut
  | RequestException
  | OtherException
  | Http (status_ok : bool) (body : option (list Location.raw)).

(** The service and its surroundings: the settings copied by [__init__],
    the clock (in ticks), the rate-limit timer and the calls made on the
    transport so far. *)
Record world : Type := {
  base_url : pystr;
  agent : pystr;
  rate_limit_delay : Z;
  max_results : Z;
  request_timeout : Z;
  now : Z;
  _last_request_time : Z;
  calls : list request
}.

Definition with_time (w : world) (now' last' : Z) : world :=
  {| base_url := base_url w; agent := agent w;
     rate_limit_delay := rate_limit_delay w; max_results := max_results w;
     request_timeout := request_timeout w;
     now := now'; _last_request_time := last'; calls := calls w |}.

Definition with_call (w : world) (r : request) (duration : Z) : world :=
  {| base_url := base_url w; agent := agent w;
     rate_limit_delay := rate_limit_delay w; max_results := max_results w;
     request_timeout := request_timeout w;
     now := now w + duration; _last_request_time := _last_request_time w;
     calls := calls w ++ [r] |}.

Definition _respect_rate_limit (w : world) : world :=
  let elapsed := now w - _last_request_time w in
  let now' := if elapsed <? rate_limit_delay w
              then now w + (rate_limit_delay w - elapsed) else now w in
  with_time w now' now'.

Section WithTransport.

Variable pyfloat : Type.
Variable to_float : scalar -> option pyfloat.

(** [requests.get]: the answer and the time the call takes. *)
Variable http_get : request -> list request -> response * Z.

Definition search (query : pystr) (w : world)
  : list (Location.t pyfloat) * world :=
  if negb (truthy (SStr query)) || negb (truthy (SStr (strip query))) then ([], w)
  else
    let w := _respect_rate_limit w in
    let r := {| url := base_url w; param_q := strip query;
                param_limit := max_results w; user_agent := agent w;
                timeout := request_timeout w |} in
    let '(answer, duration) := http_get r (calls w) in
    let w := with_call w r duration in
    match answer with
    | Http true (Some results) =>
        match mapM (Location.from_nominatim pyfloat to_float) results with
        | Some locations => (locations, w)
        | None => ([], w)
        end
    | _ => ([], w)
    end.

Definition get_coordinates (query : pystr) (w : world)
  : option (pyfloat * pyfloat) * world :=
  let '(locations, w) := search query w in
  match locations with
  | l :: _ => (Some (Location.lat l, Location.lon l), w)
  | [] => (None, w)
  end.

Definition get_location_details (query : pystr) (w : world)
  : option (Location.t pyfloat) * world :=
  let '(locations, w) := search query w in
  match locations with
  | l :: _ => (Some l, w)
  | [] => (None, w)
  end.

End WithTransport.

End LocationService.

(* ===================================================================== *)
(** * services/agent_service.py                                           *)
(* ===================================================================== *)

Module TripGenieAgent.

Record tool_call : Type := {
  call_id : pystr;
  tool_name : pystr;
  tool_args : pystr
}.

Inductive message : Type :=
  | SystemMessage (content : pystr)
  | HumanMessage (content : pystr)
  | AIMessage (content : pystr) (tool_calls : list tool_call)
  | ToolMessage (content : pystr) (tool_call_id : pystr).

(** Where [tools_condition] sends the run after the agent node. *)
Inductive route : Type := ToTools | ToEnd.

Section WithModel.

(** [config/prompts.py]. *)
Variable SYSTEM_PROMPT : pystr.

(** [self.llm_with_tools.invoke(messages)]: the assistant message, or the
    text [str(e)] of the exception raised. *)
Variable llm_invoke : list message -> pystr + (pystr * list tool_call).

(** What a bound tool returns for a call.  A call that raises is not
    modelled: it ends the run of the graph with that exception. *)
Variable run_tool : tool_call -> pystr.

(** The step budget of a compiled graph and the text of the error raised
    when it is used up. *)
Variable recursion_limit : nat.
Variable recursion_error : pystr.

(** [str(message)] for a message that is not an [AIMessage]. *)
Variable message_str : message -> pystr.

Definition error_reply (e : pystr) : pystr :=
  lit "I encountered an error while processing your request: " ++ e
  ++ lit ". Please try again or rephrase your query.".

Definition with_system_prompt (messages : list message) : list message :=
  match messages with
  | SystemMessage _ :: _ => messages
  | _ => SystemMessage SYSTEM_PROMPT :: messages
  end.

(** The update returned by the node: the messages to append. *)
Definition _agent_node (state : list message) : list message :=
  let messages := with_system_prompt state in
  match llm_invoke messages with
  | inr (content, calls) => [AIMessage content calls]
  | inl e => [AIMessage (error_reply e) []]
  end.

Definition tools_condition (state : list message) : route :=
  match last state with
  | Some (AIMessage _ (_ :: _)) => ToTools
  | _ => ToEnd
  end.

(** The prebuilt tool node: one tool message per requested call. *)
Definition tool_node (state : list message) : list message :=
  match last state with
  | Some (AIMessage _ calls) =>
      map (fun c => ToolMessage (run_tool c) (call_id c)) calls
  | _ => []
  end.

(** [self.app.invoke]: agent, then tools and agent again while tool calls
    are requested, within [steps] node executions; [inl] is the text of
    the exception raised when the budget is used up. *)
Fixpoint invoke_from_agent (steps : nat) (state : list message)
  : pystr + list message :=
  match steps with
  | O => inl recursion_error
  | S steps' =>
      let state := state ++ _agent_node state in
      match tools_condition state with
      | ToEnd => inr state
      | ToTools =>
          match steps' with
          | O => inl recursion_error
          | S steps'' => invoke_from_agent steps'' (state ++ tool_node state)
          end
      end
  end.

Definition generate_trip_plan (query : pystr) : pystr :=
  let initial_state := [HumanMessage query] in
  match invoke_from_agent recursion_limit initial_state with
  | inr result =>
      match last result with
      | Some (AIMessage content _) => content
      | Some final_message => message_str final_message
      | None => lit "Error: Unable to generate trip plan. list index out of range"
      end
  | inl e => lit "Error: Unable to generate trip plan. " ++ e
  end.

End WithModel.

End TripGenieAgent.

(* ===================================================================== *)
(** * Properties of the validation layer                                  *)
(* ===================================================================== *)

Module ValidatorFacts.

Import TripValidator.

(** ** Stripping white space *)

Lemma lstrip_suffix (s : pystr) : exists dropped, s = dropped ++ lstrip s.
Proof.
  induction s as [|c s [dropped IH]]; simpl.
  - exists []. reflexivity.
  - destruct (isspace c).
    + exists (c :: dropped). simpl. now rewrite <- IH.
    + exists []. reflexivity.
Qed.

Lemma rstrip_prefix (s : pystr) : exists dropped, s = rstrip s ++ dropped.
Proof.
  unfold rstrip. destruct (lstrip_suffix (rev s)) as [dropped H].
  exists (rev dropped).
  rewrite <- rev_app_distr, <- H. now rewrite rev_involutive.
Qed.

Lemma lstrip_idem (s : pystr) : lstrip (lstrip s) = lstrip s.
Proof.
  induction s as [|c s IH]; simpl; [reflexivity|].
  destruct (isspace c) eqn:E; [exact IH|]. simpl. now rewrite E.
Qed.

Lemma lstrip_snoc (s : pystr) (c : N) :
  isspace c = false -> lstrip (s ++ [c]) = lstrip s ++ [c].
Proof.
  intros Hc. induction s as [|a s IH]; simpl.
  - now rewrite Hc.
  - destruct (isspace a); [exact IH | reflexivity].
Qed.

Lemma rstrip_cons (c : N) (s : pystr) :
  isspace c = false -> rstrip (c :: s) = c :: rstrip s.
Proof.
  intros Hc. unfold rstrip. simpl.
  rewrite lstrip_snoc by exact Hc. rewrite rev_app_distr. reflexivity.
Qed.

Lemma lstrip_head (s : pystr) :
  match lstrip s with
  | c :: _ => isspace c = false
  | [] => True
  end.
Proof.
  induction s as [|c s IH]; simpl; [exact I|].
  destruct (isspace c) eqn:E; [exact IH | exact E].
Qed.

Lemma rstrip_idem (s : pystr) : rstrip (rstrip s) = rstrip s.
Proof.
  unfold rstrip. rewrite rev_involutive. now rewrite lstrip_idem.
Qed.

(** A stripped string is not changed by stripping it again. *)
Lemma strip_idem (s : pystr) : strip (strip s) = strip s.
Proof.
  unfold strip.
  assert (H : lstrip (rstrip (lstrip s)) = rstrip (lstrip s)).
  { pose proof (lstrip_head s) as Hh.
    destruct (lstrip s) as [|c t]; [reflexivity|].
    rewrite rstrip_cons by exact Hh. simpl. now rewrite Hh. }
  rewrite H. apply rstrip_idem.
Qed.

(** Only white space makes the stripped string empty. *)
Lemma lstrip_nil (s : pystr) : lstrip s = [] <-> forallb isspace s = true.
Proof.
  induction s as [|c s IH]; simpl; [tauto|].
  destruct (isspace c); simpl; [exact IH|]. split; discriminate.
Qed.

Lemma strip_nil (s : pystr) : strip s = [] <-> forallb isspace s = true.
Proof.
  unfold strip. rewrite <- lstrip_nil. split.
  - intros H. destruct (rstrip_prefix (lstrip s)) as [dropped Hd].
    rewrite H in Hd. simpl in Hd.
    pose proof (lstrip_head s) as Hh.
    destruct (lstrip s) as [|c t] eqn:E; [reflexivity|].
    rewrite rstrip_cons in H by exact Hh. discriminate.
  - intros ->. reflexivity.
Qed.

(** ** The substitutions of [sanitize_text_input] *)

Definition matches (match_len : pystr -> option nat) (text : pystr) : bool :=
  match match_len text with
  | Some _ => true
  | None => false
  end.

(** What may follow a [<] for a tag to start there. *)
Definition opens (rest : pystr) : bool :=
  match rest with
  | d :: _ => negb (Re.is_gt d) && existsb Re.is_gt rest
  | [] => false
  end.

Lemma drop_not_gt_run (text : pystr) :
  match drop (Re.not_gt_run text) text with
  | [] => existsb Re.is_gt text = false
  | _ :: _ => existsb Re.is_gt text = true
  end.
Proof.
  induction text as [|c text IH]; simpl; [reflexivity|].
  destruct (Re.is_gt c) eqn:E; simpl; [reflexivity|exact IH].
Qed.

Lemma tag_matches (c : N) (rest : pystr) :
  matches Re.tag_len (c :: rest) = (c =? ch "<")%N && opens rest.
Proof.
  unfold matches, Re.tag_len.
  destruct (c =? ch "<")%N; simpl; [|reflexivity].
  destruct rest as [|d rest]; simpl; [reflexivity|].
  destruct (Re.is_gt d) eqn:E; simpl; [reflexivity|].
  pose proof (drop_not_gt_run rest) as H.
  destruct (drop (Re.not_gt_run rest) rest); now rewrite H.
Qed.

Lemma tag_len_positive (text : pystr) : Re.tag_len text <> Some O.
Proof.
  unfold Re.tag_len. destruct text as [|c rest]; [discriminate|].
  destruct (c =? ch "<")%N; [|discriminate].
  destruct (Re.not_gt_run rest); [discriminate|].
  destruct (drop (S n) rest); discriminate.
Qed.

(** The substitution only removes characters. *)
Lemma sub_empty_existsb (f : pystr -> option nat) (p : N -> bool) (text : pystr) :
  existsb p text = false ->
  forall skip, existsb p (Re.sub_empty f skip text) = false.
Proof.
  induction text as [|c rest IH]; simpl; intros H skip; [reflexivity|].
  apply orb_false_iff in H as [Hc Hrest].
  destruct skip as [|k]; [|now apply IH].
  destruct (f (c :: rest)) as [[|k]|]; simpl; rewrite ?Hc; simpl; now apply IH.
Qed.

Lemma opens_sub_empty (rest : pystr) :
  opens rest = false -> opens (Re.sub_empty Re.tag_len 0 rest) = false.
Proof.
  destruct rest as [|d r]; [reflexivity|].
  unfold opens at 1. intros H.
  destruct (Re.is_gt d) eqn:E.
  - assert (Hd : Re.tag_len (d :: r) = None).
    { unfold Re.tag_len. unfold Re.is_gt in E. apply N.eqb_eq in E. subst d.
      reflexivity. }
    cbn [Re.sub_empty]. rewrite Hd. simpl. now rewrite E.
  - simpl negb in H. rewrite andb_true_l in H.
    pose proof (sub_empty_existsb Re.tag_len Re.is_gt (d :: r) H O) as Hs.
    unfold opens. destruct (Re.sub_empty Re.tag_len 0 (d :: r)); [reflexivity|].
    rewrite Hs. apply andb_false_r.
Qed.

Lemma search_cons (f : pystr -> option nat) (c : N) (rest : pystr) :
  Re.search f (c :: rest) = matches f (c :: rest) || Re.search f rest.
Proof. unfold matches. simpl. now destruct (f (c :: rest)). Qed.

(** After the first substitution no tag is left. *)
Lemma no_tag_left (text : pystr) (skip : nat) :
  Re.search Re.tag_len (Re.sub_empty Re.tag_len skip text) = false.
Proof.
  revert skip. induction text as [|c rest IH]; intros skip; [reflexivity|].
  cbn [Re.sub_empty]. destruct skip as [|k]; [|apply IH].
  destruct (Re.tag_len (c :: rest)) as [[|k]|] eqn:E.
  - now apply tag_len_positive in E.
  - apply IH.
  - rewrite search_cons, IH, orb_false_r, tag_matches.
    assert (H : matches Re.tag_len (c :: rest) = false)
      by (unfold matches; now rewrite E).
    rewrite tag_matches in H.
    destruct (c =? ch "<")%N; [|reflexivity]. simpl in *.
    now apply opens_sub_empty.
Qed.

Lemma search_app_r (f : pystr -> option nat) (xs ys : pystr) :
  Re.search f (xs ++ ys) = false -> Re.search f ys = false.
Proof.
  induction xs as [|c xs IH]; simpl; [trivial|].
  destruct (f (c :: xs ++ ys)); [discriminate|exact IH].
Qed.

Lemma search_tag_app_l (xs ys : pystr) :
  Re.search Re.tag_len (xs ++ ys) = false -> Re.search Re.tag_len xs = false.
Proof.
  induction xs as [|c xs IH]; [reflexivity|].
  rewrite <- app_comm_cons, !search_cons, !tag_matches.
  intros H. apply orb_false_iff in H as [Hm Hs].
  rewrite (IH Hs), orb_false_r.
  destruct (c =? ch "<")%N; [|reflexivity]. simpl in *.
  destruct xs as [|d r]; [reflexivity|].
  simpl in *. destruct (Re.is_gt d); simpl in *; [reflexivity|].
  rewrite existsb_app in Hm. now apply orb_false_iff in Hm as [-> _].
Qed.

Lemma strip_no_tag (text : pystr) :
  Re.search Re.tag_len text = false -> Re.search Re.tag_len (strip text) = false.
Proof.
  intros H. unfold strip.
  destruct (lstrip_suffix text) as [d1 H1].
  destruct (rstrip_prefix (lstrip text)) as [d2 H2].
  rewrite H1 in H. apply search_app_r in H.
  rewrite H2 in H. now apply search_tag_app_l in H.
Qed.

(** A pattern character that is not a letter matches only itself, and no
    letter of the pattern matches [>]. *)
Lemma ci_eq_exact (p c : N) :
  (p < 97)%N -> Re.ci_eq p c = true -> c = p.
Proof.
  intros Hp. unfold Re.ci_eq.
  assert (H97 : (97 <=? p)%N = false) by (apply N.leb_gt; lia).
  assert (H105 : (p =? 105)%N = false) by (apply N.eqb_neq; lia).
  assert (H115 : (p =? 115)%N = false) by (apply N.eqb_neq; lia).
  assert (H107 : (p =? 107)%N = false) by (apply N.eqb_neq; lia).
  rewrite H97, H105, H115, H107. simpl. rewrite !orb_false_r.
  intros H. apply N.eqb_eq in H. exact H.
Qed.

Lemma ci_eq_s_not_gt (c : N) : Re.ci_eq 115 c = true -> Re.is_gt c = false.
Proof.
  unfold Re.ci_eq, Re.is_gt. simpl. rewrite !orb_false_r.
  intros H. apply N.eqb_neq.
  repeat (apply orb_true_iff in H as [H|H]);
    apply N.eqb_eq in H; subst c; discriminate.
Qed.

Lemma starts_with_ci_gt (pat text : pystr) :
  Re.starts_with_ci pat text = true -> In (ch ">") pat ->
  existsb Re.is_gt text = true.
Proof.
  revert text. induction pat as [|p pat IH]; intros text H Hin; [destruct Hin|].
  destruct text as [|c text]; [discriminate|].
  simpl in H. apply andb_true_iff in H as [Hc Ht]. simpl.
  destruct Hin as [->|Hin].
  - apply ci_eq_exact in Hc; [|reflexivity]. subst c. reflexivity.
  - rewrite (IH _ Ht Hin). apply orb_true_r.
Qed.

Lemma find_ci_gt (text : pystr) (j : nat) :
  Re.find_ci Re.script_close text = Some j -> existsb Re.is_gt text = true.
Proof.
  revert j. induction text as [|c text IH]; intros j; [discriminate|].
  cbn [Re.find_ci].
  destruct (Re.starts_with_ci Re.script_close (c :: text)) eqn:E.
  - intros _. apply (starts_with_ci_gt Re.script_close); [exact E|].
    vm_compute. tauto.
  - destruct (Re.find_ci Re.script_close text) as [k|]; [|discriminate].
    intros _. simpl. rewrite (IH k eq_refl). apply orb_true_r.
Qed.

Lemma existsb_drop (p : N -> bool) (n : nat) (text : pystr) :
  existsb p (drop n text) = true -> existsb p text = true.
Proof.
  revert text. induction n as [|n IH]; intros [|c text]; simpl; trivial.
  intros H. rewrite (IH _ H). apply orb_true_r.
Qed.

(** Where a script block starts, a tag starts. *)
Lemma script_is_tag (text : pystr) (n : nat) :
  Re.script_len text = Some n -> matches Re.tag_len text = true.
Proof.
  unfold Re.script_len.
  destruct (Re.starts_with_ci Re.script_open text) eqn:Eo; [|discriminate].
  destruct (Re.find_ci Re.script_close (drop (length Re.script_open) text))
    as [j|] eqn:Ef; [|discriminate].
  intros _. apply find_ci_gt in Ef.
  destruct text as [|c0 [|c1 text]]; try discriminate.
  change Re.script_open with (60 :: 115 :: lit "cript")%N in Eo.
  cbn [Re.starts_with_ci] in Eo.
  apply andb_true_iff in Eo as [H0 Eo]. apply andb_true_iff in Eo as [H1 _].
  apply ci_eq_exact in H0; [|reflexivity]. subst c0.
  apply ci_eq_s_not_gt in H1.
  rewrite tag_matches. change (60 =? ch "<")%N with true.
  unfold opens. rewrite H1. simpl negb. rewrite !andb_true_l.
  apply (existsb_drop _ 6). exact Ef.
Qed.

(** Hence the second substitution, which runs on text that holds no tag
    any more, finds nothing to remove. *)
Lemma script_sub_identity (text : pystr) :
  Re.search Re.tag_len text = false ->
  Re.sub_empty Re.script_len 0 text = text.
Proof.
  induction text as [|c rest IH]; [reflexivity|].
  rewrite search_cons. intros H. apply orb_false_iff in H as [Hm Hs].
  cbn [Re.sub_empty].
  destruct (Re.script_len (c :: rest)) as [n|] eqn:E.
  - apply script_is_tag in E. congruence.
  - now rewrite (IH Hs).
Qed.

(** ** Range checks *)

(** C4. An integer people count below 1 or above 50 is rejected with the
    message of the bound it breaks, and so is a day count below 1 or above
    365; the boundary values 1 and 50, 1 and 365 are accepted. *)
Theorem count_bounds (n : Z) :
  (n < 1 -> validate_people_count (SInt n)
            = Raise (ValidationError (lit "At least 1 traveler is required")))
  /\ (n > 50 -> validate_people_count (SInt n)
                = Raise (ValidationError (lit "Maximum 50 travelers allowed")))
  /\ (n < 1 -> validate_days (SInt n)
               = Raise (ValidationError (lit "Trip must be at least 1 day")))
  /\ (n > 365 -> validate_days (SInt n)
                 = Raise (ValidationError (lit "Maximum trip duration is 365 days")))
  /\ validate_people_count (SInt 1) = Ok true
  /\ validate_people_count (SInt 50) = Ok true
  /\ validate_days (SInt 1) = Ok true
  /\ validate_days (SInt 365) = Ok true.
Proof.
  unfold validate_people_count, validate_days. cbn [as_int].
  repeat split; try reflexivity; intros H.
  - destruct (Z.ltb_spec n 1); [reflexivity|lia].
  - destruct (Z.ltb_spec n 1); [lia|].
    destruct (Z.gtb_spec n 50); [reflexivity|lia].
  - destruct (Z.ltb_spec n 1); [reflexivity|lia].
  - destruct (Z.ltb_spec n 1); [lia|].
    destruct (Z.gtb_spec n 365); [reflexivity|lia].
Qed.

Lemma count_bounds_witness :
  validate_people_count (SInt 0)
    = Raise (ValidationError (lit "At least 1 traveler is required"))
  /\ validate_people_count (SInt 51)
     = Raise (ValidationError (lit "Maximum 50 travelers allowed"))
  /\ validate_days (SInt 0)
     = Raise (ValidationError (lit "Trip must be at least 1 day"))
  /\ validate_days (SInt 366)
     = Raise (ValidationError (lit "Maximum trip duration is 365 days")).
Proof.
  split; [apply (count_bounds 0); lia|].
  split; [apply (count_bounds 51); lia|].
  split; [apply (count_bounds 0); lia|].
  apply (count_bounds 366); lia.
Defined.

(** ** The same-location check *)

Definition SAME_LOCATION : pystr :=
  lit "Departure and destination cannot be the same".

(** C5. Two locations that are equal once case is folded and surrounding
    white space is trimmed are rejected, with a message that contains
    "cannot be the same"; two that differ after that are accepted. *)
Theorem same_location_check (lower : pystr -> pystr) (from_loc to_loc : pystr) :
  (strip (lower from_loc) = strip (lower to_loc) ->
     validate_same_location lower (SStr from_loc) (SStr to_loc)
       = Raise (ValidationError SAME_LOCATION)
     /\ contains (lit "cannot be the same") SAME_LOCATION = true)
  /\ (strip (lower from_loc) <> strip (lower to_loc) ->
        validate_same_location lower (SStr from_loc) (SStr to_loc) = Ok true).
Proof.
  unfold validate_same_location, str_eqb. split; intros H.
  - rewrite bool_decide_eq_true_2 by exact H. split; reflexivity.
  - rewrite bool_decide_eq_false_2 by exact H. reflexivity.
Qed.

Lemma same_location_check_witness :
  validate_same_location ascii_lower (SStr (lit "Paris")) (SStr (lit "  PARIS "))
    = Raise (ValidationError SAME_LOCATION)
  /\ validate_same_location ascii_lower (SStr (lit "Paris")) (SStr (lit "Rome"))
     = Ok true.
Proof.
  split.
  - apply (same_location_check ascii_lower (lit "Paris") (lit "  PARIS ")).
    reflexivity.
  - apply (same_location_check ascii_lower (lit "Paris") (lit "Rome")).
    vm_compute. discriminate.
Defined.

(** ** Free text *)

(** C6, as the code has it.  Sanitizing a string never fails.  The result
    is the text without its HTML tags, trimmed, and cut to the maximum
    length, which is 500 unless the caller gives one, with "..." appended
    exactly when it was cut. *)
Theorem sanitize_text_input_transforms (text : pystr) (max_length : option Z) :
  let limit := default 500 max_length in
  let cleaned := strip (Re.sub_empty Re.tag_len 0 text) in
  sanitize_text_input (SStr text) max_length
    = Ok (match text with
          | [] => []
          | _ :: _ => if len cleaned >? limit
                      then slice_to cleaned limit ++ lit "..."
                      else cleaned
          end)
  /\ Re.search Re.tag_len cleaned = false
  /\ strip cleaned = cleaned.
Proof.
  intros limit cleaned. split; [|split].
  - unfold sanitize_text_input. destruct text as [|c text]; [reflexivity|].
    cbn [truthy negb].
    rewrite (script_sub_identity _ (no_tag_left (c :: text) 0)).
    subst limit cleaned. unfold DEFAULT_MAX_LENGTH.
    now destruct (len _ >? _).
  - apply strip_no_tag, no_tag_left.
  - apply strip_idem.
Qed.

(** C6 fails as stated: without an explicit maximum a text of 501
    characters is cut to 500, although it is kept whole for a maximum of
    1000; and the content of a script block survives. *)
Lemma sanitize_default_not_1000 :
  sanitize_text_input (SStr (replicate 501 (ch "a"))) None
    = Ok (replicate 500 (ch "a") ++ lit "...")
  /\ sanitize_text_input (SStr (replicate 501 (ch "a"))) (Some 1000)
     = Ok (replicate 501 (ch "a"))
  /\ sanitize_text_input (SStr (lit "<script>alert(1)</script>")) None
     = Ok (lit "alert(1)").
Proof. repeat split; vm_compute; reflexivity. Qed.

(** ** The composite validator *)

(** A value on which the string methods of the checks do not raise: a
    string, or a false value, which is rejected before any method is
    called. *)
Definition textual (v : scalar) : bool :=
  match v with
  | SStr _ => true
  | _ => negb (truthy v)
  end.

Definition field_textual (trip_data : pydict) (key : string) : bool :=
  match trip_data !! key with
  | Some v => textual v
  | None => true
  end.

(** The message of a failed check. *)
Definition failure (check : result bool) : list pystr :=
  match check with
  | Raise (ValidationError msg) => [msg]
  | _ => []
  end.

(** A check that returns or fails with a [ValidationError]. *)
Definition checked (check : result bool) : Prop :=
  match check with
  | Raise AttributeError | Raise TypeError => False
  | _ => True
  end.

(** The bundle with its notes, if any, sanitized with a maximum length
    of 1000. *)
Definition with_sanitized_notes (trip_data : pydict) : pydict :=
  match trip_data !! "notes" with
  | Some notes =>
      match sanitize_text_input notes (Some 1000) with
      | Ok notes => <["notes" := SStr notes]> trip_data
      | Raise _ => trip_data
      end
  | None => trip_data
  end.

Definition NEWLINE : pystr := [10%N].

(** A value that is textual and true is a string. *)
Ltac falsy_or_text H Ev :=
  simpl in H, Ev; first [discriminate | rewrite Ev in H; simpl in H; discriminate].

Section Composite.

Variable lower : pystr -> pystr.

Lemma collect_checked (errors : list pystr) (check : result bool) :
  checked check -> collect errors check = Ok (errors ++ failure check).
Proof.
  destruct check as [b|[msg| |]]; simpl; intros H; try contradiction.
  - now rewrite app_nil_r.
  - reflexivity.
Qed.

Lemma validate_location_checked (v : scalar) (field_name : option pystr) :
  textual v = true -> checked (validate_location v field_name).
Proof.
  unfold validate_location. intros H.
  destruct (truthy v) eqn:Ev; simpl; [|exact I].
  destruct v as [|b|z|s]; try (falsy_or_text H Ev).
  repeat match goal with
         | |- context [if ?b then _ else _] => destruct b
         end; exact I.
Qed.

Lemma validate_people_count_checked (v : scalar) : checked (validate_people_count v).
Proof.
  unfold validate_people_count. destruct (as_int v) as [n|]; [|exact I].
  destruct (n <? 1); [exact I|]. destruct (n >? 50); exact I.
Qed.

Lemma validate_days_checked (v : scalar) : checked (validate_days v).
Proof.
  unfold validate_days. destruct (as_int v) as [n|]; [|exact I].
  destruct (n <? 1); [exact I|]. destruct (n >? 365); exact I.
Qed.

Lemma validate_same_location_checked (a b : scalar) :
  textual a = true -> textual b = true -> truthy a && truthy b = true ->
  checked (validate_same_location lower a b).
Proof.
  intros Ha Hb H. apply andb_true_iff in H as [Ta Tb].
  destruct a as [| | |a]; try (falsy_or_text Ha Ta).
  destruct b as [| | |b]; try (falsy_or_text Hb Tb).
  unfold validate_same_location. now destruct (str_eqb _ _).
Qed.

Lemma textual_get_or (trip_data : pydict) (key : string) (s : pystr) :
  field_textual trip_data key = true -> textual (get_or trip_data key (SStr s)) = true.
Proof. unfold field_textual, get_or. now destruct (trip_data !! key). Qed.

Lemma textual_get (trip_data : pydict) (key : string) :
  field_textual trip_data key = true -> textual (get trip_data key) = true.
Proof. unfold field_textual, get, get_or. now destruct (trip_data !! key). Qed.

Lemma sanitize_textual (v : scalar) (max_length : option Z) :
  textual v = true -> exists s, sanitize_text_input v max_length = Ok s.
Proof.
  unfold sanitize_text_input. intros H.
  destruct (truthy v) eqn:Ev; simpl; [|now exists []].
  destruct v as [|b|z|s]; try (falsy_or_text H Ev).
  destruct (len _ >? _); eauto.
Qed.

(** C3, as the code has it.  On a bundle whose cities and notes are
    strings (or empty), the composite validator runs the location check
    on the departure and on the destination, the same-location check when
    both are non-empty, the people check and the days check; every
    failure message is collected, in this order, whatever the earlier
    checks gave.  The notes, if present, are sanitized.  With no failure
    the bundle is returned; otherwise the call fails with the messages
    joined by newlines. *)
Theorem validate_complete_collects (trip_data : pydict) :
  field_textual trip_data "from_city" = true ->
  field_textual trip_data "to_city" = true ->
  field_textual trip_data "notes" = true ->
  let errors :=
    failure (validate_location (get_or trip_data "from_city" (SStr []))
                               (Some (lit "Departure location")))
    ++ failure (validate_location (get_or trip_data "to_city" (SStr []))
                                  (Some (lit "Destination")))
    ++ (if truthy (get trip_data "from_city") && truthy (get trip_data "to_city")
        then failure (validate_same_location lower (get trip_data "from_city")
                                                   (get trip_data "to_city"))
        else [])
    ++ failure (validate_people_count (get_or trip_data "people" (SInt 0)))
    ++ failure (validate_days (get_or trip_data "days" (SInt 0))) in
  validate_complete_trip_input lower trip_data
  = (with_sanitized_notes trip_data,
     match errors with
     | [] => Ok (with_sanitized_notes trip_data)
     | _ :: _ => Raise (ValidationError (join NEWLINE errors))
     end).
Proof.
  intros Hfrom Hto Hnotes errors. subst errors.
  unfold validate_complete_trip_input.
  rewrite collect_checked
    by (apply validate_location_checked, textual_get_or, Hfrom).
  cbn [bind].
  rewrite collect_checked
    by (apply validate_location_checked, textual_get_or, Hto).
  cbn [bind].
  pose proof (validate_same_location_checked _ _
                (textual_get _ _ Hfrom) (textual_get _ _ Hto)) as Hsame.
  destruct (truthy (get trip_data "from_city") && truthy (get trip_data "to_city"));
    [rewrite collect_checked by (apply Hsame; reflexivity)|];
    cbn [bind];
    rewrite collect_checked by apply validate_people_count_checked;
    cbn [bind];
    rewrite collect_checked by apply validate_days_checked;
    rewrite ?app_nil_l, <- ?app_assoc;
    unfold with_sanitized_notes;
    (destruct (trip_data !! "notes") as [notes|] eqn:En;
     [ destruct (sanitize_textual notes (Some 1000)) as [s Hs];
       [ unfold field_textual in Hnotes; now rewrite En in Hnotes
       | rewrite Hs; cbn [bind];
         now destruct (failure _ ++ _) ]
     | now destruct (failure _ ++ _) ]).
Qed.

End Composite.

Definition paris_twice : pydict :=
  list_to_map [("from_city", SStr (lit "Paris")); ("to_city", SStr (lit " paris "));
               ("people", SInt 51); ("days", SInt 0);
               ("notes", SStr (lit " <b>window</b> seat "))].

Lemma validate_complete_collects_witness :
  validate_complete_trip_input ascii_lower paris_twice
  = (<["notes" := SStr (lit "window seat")]> paris_twice,
     Raise (ValidationError
              (lit "Departure and destination cannot be the same"
               ++ NEWLINE ++ lit "Maximum 50 travelers allowed"
               ++ NEWLINE ++ lit "Trip must be at least 1 day"))).
Proof.
  exact (validate_complete_collects ascii_lower paris_twice eq_refl eq_refl eq_refl).
Defined.

Definition nowhere : pydict :=
  list_to_map [("from_city", SStr []); ("to_city", SStr []);
               ("people", SInt 2); ("days", SInt 3)].

(** C3 fails as stated: on a bundle with two empty cities the
    same-location check, run on these cities, fails, but the composite
    validator does not run it and its failure carries no such message. *)
Lemma same_location_not_collected :
  validate_same_location ascii_lower (get nowhere "from_city") (get nowhere "to_city")
    = Raise (ValidationError SAME_LOCATION)
  /\ snd (validate_complete_trip_input ascii_lower nowhere)
     = Raise (ValidationError
                (lit "Departure location cannot be empty"
                 ++ NEWLINE ++ lit "Destination cannot be empty"))
  /\ contains (lit "cannot be the same")
       (lit "Departure location cannot be empty"
        ++ NEWLINE ++ lit "Destination cannot be empty") = false.
Proof. repeat split; vm_compute; reflexivity. Qed.

End ValidatorFacts.

(* ===================================================================== *)
(** * Properties of the trip archive                                      *)
(* ===================================================================== *)

Module StorageFacts.

Import TripStorage.

(** ** The order on sort keys *)

Lemma str_ltb_asym (a b : pystr) : str_ltb a b = true -> str_ltb b a = false.
Proof.
  revert b. induction a as [|x a IH]; intros [|y b]; simpl; try easy.
  intros H. apply orb_true_iff in H as [H|H].
  - apply N.ltb_lt in H.
    rewrite (proj2 (N.ltb_ge y x)) by lia.
    rewrite (proj2 (N.eqb_neq y x)) by lia. reflexivity.
  - apply andb_true_iff in H as [E H]. apply N.eqb_eq in E. subst y.
    rewrite N.ltb_irrefl, N.eqb_refl. simpl. now apply IH.
Qed.

Lemma str_ltb_false_trans (a b c : pystr) :
  str_ltb a b = false -> str_ltb b c = false -> str_ltb a c = false.
Proof.
  revert b c. induction a as [|x a IH]; intros [|y b] [|z c]; simpl; try easy.
  intros Hab Hbc.
  apply orb_false_iff in Hab as [Hxy Hab]. apply N.ltb_ge in Hxy.
  apply orb_false_iff in Hbc as [Hyz Hbc]. apply N.ltb_ge in Hyz.
  rewrite (proj2 (N.ltb_ge x z)) by lia. simpl.
  destruct (N.eqb_spec x z) as [->|Hne]; [|reflexivity]. simpl.
  assert (y = z) by lia. subst y.
  rewrite N.eqb_refl in Hab, Hbc. simpl in Hab, Hbc. now apply (IH b).
Qed.

(** [newer_or_equal a b]: the comparison [a < b] is defined and false. *)
Definition newer_or_equal (a b : scalar) : Prop := lt a b = Some false.

Lemma lt_asym (a b : scalar) : lt a b = Some true -> newer_or_equal b a.
Proof.
  unfold newer_or_equal.
  destruct a as [|[]|x|x], b as [|[]|y|y]; simpl; try discriminate;
    intros H; try reflexivity; injection H as H; f_equal;
    try (now apply str_ltb_asym);
    try (apply Z.ltb_lt in H; apply Z.ltb_ge; lia).
Qed.

Lemma newer_or_equal_trans (a b c : scalar) :
  newer_or_equal a b -> newer_or_equal b c -> newer_or_equal a c.
Proof.
  unfold newer_or_equal.
  destruct a as [|[]|x|x], b as [|[]|y|y], c as [|[]|z|z]; simpl;
    try discriminate; intros Hab Hbc; try reflexivity;
    try (injection Hab as Hab); try (injection Hbc as Hbc); f_equal;
    try (now apply (str_ltb_false_trans x y z));
    try (apply Z.ltb_ge in Hab); try (apply Z.ltb_ge in Hbc);
    try (apply Z.ltb_ge); lia.
Qed.

(** ** The sort of [get_all_trips] *)

Section Sort.

Abbreviation keyed := (scalar * pydict)%type.

Definition by_key (x y : keyed) : Prop := newer_or_equal (fst x) (fst y).

Lemma insert_desc_perm (x : keyed) (sorted out : list keyed) :
  insert_desc x sorted = Some out -> Permutation (x :: sorted) out.
Proof.
  revert out. induction sorted as [|y rest IH]; simpl; intros out H.
  - injection H as <-. reflexivity.
  - destruct (lt (fst x) (fst y)) as [[|]|]; simpl in H; try discriminate.
    + destruct (insert_desc x rest) as [rest'|]; simpl in H; [|discriminate].
      injection H as <-. rewrite perm_swap. constructor. now apply IH.
    + injection H as <-. reflexivity.
Qed.

Lemma insert_desc_sorted (x : keyed) (sorted out : list keyed) :
  StronglySorted by_key sorted -> insert_desc x sorted = Some out ->
  StronglySorted by_key out.
Proof.
  revert out. induction sorted as [|y rest IH]; simpl; intros out Hs H.
  - injection H as <-. repeat constructor.
  - apply StronglySorted_inv in Hs as [Hrest Hy].
    destruct (lt (fst x) (fst y)) as [[|]|] eqn:E; simpl in H; try discriminate.
    + destruct (insert_desc x rest) as [rest'|] eqn:Ei; simpl in H; [|discriminate].
      injection H as <-. constructor; [now apply IH|].
      apply insert_desc_perm in Ei.
      eapply Permutation_Forall; [exact Ei|].
      constructor; [now apply lt_asym|exact Hy].
    + injection H as <-. constructor; [now constructor|].
      constructor; [exact E|].
      eapply Forall_impl; [exact Hy|].
      intros z Hz. eapply newer_or_equal_trans; [exact E|exact Hz].
Qed.

Lemma sort_desc_perm (l out : list keyed) :
  sort_desc l = Some out -> Permutation l out.
Proof.
  revert out. induction l as [|x rest IH]; simpl; intros out H.
  - injection H as <-. constructor.
  - destruct (sort_desc rest) as [sorted|]; simpl in H; [|discriminate].
    apply insert_desc_perm in H. rewrite <- H. constructor. now apply IH.
Qed.

Lemma sort_desc_sorted (l out : list keyed) :
  sort_desc l = Some out -> StronglySorted by_key out.
Proof.
  revert out. induction l as [|x rest IH]; simpl; intros out H.
  - injection H as <-. constructor.
  - destruct (sort_desc rest) as [sorted|]; simpl in H; [|discriminate].
    eapply insert_desc_sorted; [|exact H]. now apply IH.
Qed.

Definition str_key (x : keyed) : Prop := exists s, fst x = SStr s.

(** With string keys no comparison fails. *)
Lemma insert_desc_total (x : keyed) (sorted : list keyed) :
  str_key x -> Forall str_key sorted -> exists out, insert_desc x sorted = Some out.
Proof.
  intros [s Hs] Hall. induction Hall as [|y rest [t Ht] _ [out IH]]; simpl; eauto.
  rewrite Hs, Ht. simpl. destruct (str_ltb s t); simpl; eauto.
  rewrite IH. simpl. eauto.
Qed.

Lemma sort_desc_total (l : list keyed) :
  Forall str_key l -> exists out, sort_desc l = Some out.
Proof.
  induction 1 as [|x rest Hx Hrest [sorted IH]]; simpl; eauto.
  rewrite IH. simpl. apply insert_desc_total; [exact Hx|].
  apply sort_desc_perm in IH. eapply Permutation_Forall; eauto.
Qed.

End Sort.

(** ** Records and their dictionaries *)

Lemma from_dict_to_dict (r : TripRecord.t) :
  TripRecord.from_dict (TripRecord.to_dict r) = Some r.
Proof. destruct r. reflexivity. Qed.

Definition as_entry (r : TripRecord.t) : entry := EDict (TripRecord.to_dict r).

(** A file that holds exactly these records, in this order. *)
Definition stored (records : list TripRecord.t) : file_content :=
  Decoded (JList (map as_entry records)).

Definition as_keyed (r : TripRecord.t) : scalar * pydict :=
  (TripRecord.timestamp r, TripRecord.to_dict r).

Lemma sort_keys_records (records : list TripRecord.t) :
  sort_keys (map as_entry records) = Some (map as_keyed records).
Proof.
  induction records as [|r rest IH]; [reflexivity|].
  cbn [map as_entry sort_keys]. rewrite IH. destruct r. reflexivity.
Qed.

Lemma mapM_from_dict (records : list TripRecord.t) :
  mapM TripRecord.from_dict (map TripRecord.to_dict records) = Some records.
Proof.
  induction records as [|r rest IH]; [reflexivity|].
  cbn [map mapM]. rewrite from_dict_to_dict, IH. reflexivity.
Qed.

Definition stamped (r : TripRecord.t) : Prop :=
  exists s, TripRecord.timestamp r = SStr s.

(** [newest_first r1 r2]: [r1] may come before [r2] in the listing. *)
Definition newest_first (r1 r2 : TripRecord.t) : Prop :=
  newer_or_equal (TripRecord.timestamp r1) (TripRecord.timestamp r2).

Lemma sorted_as_keyed (records : list TripRecord.t) :
  StronglySorted by_key (map as_keyed records) ->
  StronglySorted newest_first records.
Proof.
  induction records as [|r rest IH]; simpl; intros H; [constructor|].
  apply StronglySorted_inv in H as [Hrest Hr].
  constructor; [now apply IH|].
  rewrite Forall_map in Hr. exact Hr.
Qed.

(** The listing of a file of well-formed records, without a limit. *)
Lemma get_all_trips_records (records : list TripRecord.t) (w : bool) :
  Forall stamped records ->
  exists listing,
    get_all_trips None {| content := stored records; writable := w |} = listing
    /\ Permutation records listing
    /\ StronglySorted newest_first listing.
Proof.
  intros Hall.
  destruct (sort_desc_total (map as_keyed records)) as [sorted Hsorted].
  { rewrite Forall_map. eapply Forall_impl; [exact Hall|].
    intros r [s Hs]. exists s. exact Hs. }
  pose proof (sort_desc_perm _ _ Hsorted) as Hperm.
  pose proof (sort_desc_sorted _ _ Hsorted) as Hord.
  destruct (Permutation_map_inv _ _ (Permutation_sym Hperm))
    as (listing & -> & Hperm').
  exists listing. split; [|split].
  - unfold get_all_trips. cbn [_read_data content stored].
    rewrite sort_keys_records. cbn [mbind option_bind].
    rewrite Hsorted. cbn [mbind option_bind limit_given].
    rewrite map_map. cbn [as_keyed snd].
    change (map (fun x => TripRecord.to_dict x) listing)
      with (map TripRecord.to_dict listing).
    now rewrite mapM_from_dict.
  - now apply Permutation_sym.
  - now apply sorted_as_keyed.
Qed.

(** ** Reading *)

(** C7. When the backing file cannot be decoded, the listing is empty and
    every lookup answers not-found; neither raises. *)
Theorem undecodable_file_reads_empty (w : bool) (limit : option Z) (trip_id : pystr) :
  get_all_trips limit {| content := Undecodable; writable := w |} = []
  /\ get_trip trip_id {| content := Undecodable; writable := w |} = None.
Proof.
  split.
  - unfold get_all_trips. cbn.
    destruct (limit_given limit) as [n|]; [|reflexivity].
    unfold slice_to. destruct (0 <=? n); now rewrite take_nil.
  - reflexivity.
Qed.

(** C10. A limit of 0 is the same as no limit: the listing is the same,
    and for a file of well-formed records it holds every record, newest
    first. *)
Theorem limit_zero_lists_all (st : storage) :
  get_all_trips (Some 0) st = get_all_trips None st
  /\ forall records : list TripRecord.t,
       content st = stored records -> Forall stamped records ->
       Permutation records (get_all_trips (Some 0) st)
       /\ length (get_all_trips (Some 0) st) = length records
       /\ StronglySorted newest_first (get_all_trips (Some 0) st).
Proof.
  split; [reflexivity|].
  intros records Hst Hall. change (get_all_trips (Some 0) st) with (get_all_trips None st).
  destruct st as [c w]. simpl in Hst. subst c.
  destruct (get_all_trips_records records w Hall) as (listing & -> & Hperm & Hord).
  split; [exact Hperm|]. split; [|exact Hord].
  symmetry. now apply Permutation_length.
Qed.

Definition noon_early : Clock.datetime :=
  {| Clock.year := 2024; Clock.month := 1; Clock.day := 5;
     Clock.hour := 12; Clock.minute := 0; Clock.second := 7;
     Clock.microsecond := 100000 |}.


Definition evening : Clock.datetime :=
  {| Clock.year := 2024; Clock.month := 1; Clock.day := 5;
     Clock.hour := 19; Clock.minute := 30; Clock.second := 0;
     Clock.microsecond := 0 |}.

Definition to_rome : TripRecord.t :=
  new_record noon_early noon_early (lit "Paris") (lit "Rome") 3 2
             (lit "Couple") (lit "Plan for Rome").


Definition to_kyoto : TripRecord.t :=
  new_record evening evening (lit "Osaka") (lit "Kyoto") 2 4
             (lit "Family") (lit "Plan for Kyoto").

Lemma limit_zero_lists_all_witness :
  Permutation [to_rome; to_kyoto]
    (get_all_trips (Some 0)
       {| content := stored [to_rome; to_kyoto]; writable := true |})
  /\ length (get_all_trips (Some 0)
               {| content := stored [to_rome; to_kyoto]; writable := true |})
     = 2%nat
  /\ StronglySorted newest_first
       (get_all_trips (Some 0)
          {| content := stored [to_rome; to_kyoto]; writable := true |}).
Proof.
  apply (proj2 (limit_zero_lists_all
                  {| content := stored [to_rome; to_kyoto]; writable := true |})).
  - reflexivity.
  - repeat constructor; eexists; reflexivity.
Defined.

(** ** Saving, deleting, clearing *)




Lemma str_eqb_refl (s : pystr) : str_eqb s s = true.
Proof. unfold str_eqb. now apply bool_decide_eq_true_2. Qed.





(** What a successful [save_trip] did. *)
Lemma save_trip_inv now_id now_stamp from_city to_city days people
    group_type trip_plan (st st' : storage) (trip_id : pystr) :
  save_trip now_id now_stamp from_city to_city days people group_type trip_plan st
    = (Some trip_id, st') ->
  trip_id = Clock.strftime_id now_id
  /\ writable st' = true
  /\ exists data,
       _read_data st = JList data
       /\ content st' = Decoded (JList (data ++ [as_entry
            (new_record now_id now_stamp from_city to_city days people
                        group_type trip_plan)])).
Proof.
  unfold save_trip, _write_data.
  destruct (_read_data st) as [data|]; [|discriminate].
  destruct (writable st) eqn:W; [|discriminate].
  intros H. injection H as <- <-. simpl. eauto.
Qed.





End StorageFacts.

(* ===================================================================== *)
(** * Properties of the geocoder                                          *)
(* ===================================================================== *)

Module LocationFacts.

Section Geocoder.

Variable pyfloat : Type.
Variable to_float : scalar -> option pyfloat.
Variable http_get :
  LocationService.request -> list LocationService.request
  -> LocationService.response * Z.

(** The city as the specification words it: the first of town, city and
    village that the address has. *)
Definition city_as_claimed (address : pydict) : scalar :=
  match address !! "town", address !! "city", address !! "village" with
  | Some v, _, _ => v
  | None, Some v, _ => v
  | None, None, Some v => v
  | None, None, None => SNone
  end.

(** The first of the values that is true; the last one if none is. *)
Fixpoint first_true (values : list scalar) : scalar :=
  match values with
  | [] => SNone
  | [v] => v
  | v :: rest => if truthy v then v else first_true rest
  end.

(** C8, as the code has it.  For a raw result whose coordinates convert
    and whose address is an object, the city of the location is the first
    of the city, town and village fields of the address, in this order,
    that is present and not empty; state and country are the fields of
    the address as they are ([None] when absent). *)
Theorem from_nominatim_fields (data : Location.raw) (address : pydict)
    (lat lon : pyfloat) :
  data !! "address" = Some (Location.RDict address) ->
  Location.float pyfloat to_float
    (default (Location.RScalar (SInt 0)) (data !! "lat")) = Some lat ->
  Location.float pyfloat to_float
    (default (Location.RScalar (SInt 0)) (data !! "lon")) = Some lon ->
  exists l,
    Location.from_nominatim pyfloat to_float data = Some l
    /\ Location.city l
       = first_true [get address "city"; get address "town"; get address "village"]
    /\ Location.state l = get address "state"
    /\ Location.country l = get address "country".
Proof.
  intros Ha Hlat Hlon. unfold Location.from_nominatim.
  rewrite Ha, Hlat, Hlon. cbn [mbind option_bind default].
  eexists. split; [reflexivity|]. cbn. unfold py_or.
  repeat split.
Qed.

(** C9. A query that is empty or all white space is answered with the
    empty list, and nothing else happens: the transport is not called,
    the clock and the rate-limit timer are untouched. *)
Theorem blank_query_short_circuits (query : pystr) (w : LocationService.world) :
  forallb isspace query = true ->
  LocationService.search pyfloat to_float http_get query w = ([], w)
  /\ LocationService.calls
       (snd (LocationService.search pyfloat to_float http_get query w))
     = LocationService.calls w.
Proof.
  intros Hblank.
  assert (H : LocationService.search pyfloat to_float http_get query w = ([], w)).
  { unfold LocationService.search.
    apply ValidatorFacts.strip_nil in Hblank. rewrite Hblank.
    cbn [truthy negb]. now rewrite orb_true_r. }
  now rewrite H.
Qed.

End Geocoder.

(** An instance for examples: coordinates given as integers. *)
Definition int_float (v : scalar) : option Z := as_int v.

Definition metropolis : Location.raw :=
  list_to_map
    [("display_name", Location.RScalar (SStr (lit "Metropolis, Kansas")));
     ("lat", Location.RScalar (SInt 37)); ("lon", Location.RScalar (SInt (-97)));
     ("address", Location.RDict (list_to_map
        [("town", SStr (lit "Smallville")); ("city", SStr (lit "Metropolis"));
         ("state", SStr (lit "Kansas")); ("country", SStr (lit "USA"))]))].

Definition metropolis_address : pydict :=
  list_to_map
    [("town", SStr (lit "Smallville")); ("city", SStr (lit "Metropolis"));
     ("state", SStr (lit "Kansas")); ("country", SStr (lit "USA"))].

Lemma from_nominatim_fields_witness :
  exists l,
    Location.from_nominatim Z int_float metropolis = Some l
    /\ Location.city l
       = first_true [get metropolis_address "city"; get metropolis_address "town";
                     get metropolis_address "village"]
    /\ Location.state l = get metropolis_address "state"
    /\ Location.country l = get metropolis_address "country".
Proof.
  apply (from_nominatim_fields Z int_float metropolis metropolis_address 37 (-97));
    reflexivity.
Defined.

(** C8 fails as stated: when the address has both a town and a city, the
    location takes the city, not the town. *)
Lemma city_before_town :
  exists l,
    Location.from_nominatim Z int_float metropolis = Some l
    /\ Location.city l = SStr (lit "Metropolis")
    /\ city_as_claimed metropolis_address = SStr (lit "Smallville")
    /\ Location.city l <> city_as_claimed metropolis_address.
Proof.
  eexists. split; [reflexivity|].
  split; [reflexivity|]. split; [reflexivity|].
  vm_compute. discriminate.
Qed.

(** A transport for examples: it always times out. *)
Definition silent (r : LocationService.request) (before : list LocationService.request)
  : LocationService.response * Z := (LocationService.TimedOut, 10).

Definition idle_world : LocationService.world :=
  {| LocationService.base_url := lit "https://nominatim.openstreetmap.org/search";
     LocationService.agent := lit "TripGenie-Education-Project-v1.0";
     LocationService.rate_limit_delay := 1000;
     LocationService.max_results := 5;
     LocationService.request_timeout := 10000;
     LocationService.now := 5000;
     LocationService._last_request_time := 0;
     LocationService.calls := [] |}.

Lemma blank_query_short_circuits_witness :
  LocationService.search Z int_float silent (lit "   ") idle_world = ([], idle_world)
  /\ LocationService.calls
       (snd (LocationService.search Z int_float silent (lit "   ") idle_world))
     = LocationService.calls idle_world.
Proof.
  apply (blank_query_short_circuits Z int_float silent (lit "   ") idle_world).
  reflexivity.
Defined.

(** A query with text in it does reach the transport. *)
Example paris_is_looked_up :
  length (LocationService.calls
            (snd (LocationService.search Z int_float silent (lit " Paris ") idle_world)))
  = 1%nat.
Proof. reflexivity. Qed.

End LocationFacts.

(* ===================================================================== *)
(** * Properties of the planner                                           *)
(* ===================================================================== *)

Module AgentFacts.

Import TripGenieAgent.

Lemma starts_with_app (needle hay more : pystr) :
  starts_with needle hay = true -> starts_with needle (hay ++ more) = true.
Proof.
  revert hay. induction needle as [|a needle IH]; intros [|b hay]; simpl; try easy.
  intros H. apply andb_true_iff in H as [-> H]. now apply IH.
Qed.

Lemma contains_app_l (needle hay more : pystr) :
  contains needle hay = true -> contains needle (hay ++ more) = true.
Proof.
  induction hay as [|b hay IH]; intros H.
  - simpl in H. rewrite orb_false_r in H.
    destruct needle; [|discriminate]. now destruct more.
  - cbn [contains] in H. apply orb_true_iff in H as [H|H].
    + rewrite <- app_comm_cons. cbn [contains].
      rewrite app_comm_cons, (starts_with_app _ _ _ H). reflexivity.
    + rewrite <- app_comm_cons. cbn [contains]. rewrite (IH H). apply orb_true_r.
Qed.

Lemma contains_app_r (needle before hay : pystr) :
  contains needle hay = true -> contains needle (before ++ hay) = true.
Proof.
  intros H. induction before as [|b before IH]; [exact H|].
  rewrite <- app_comm_cons. cbn [contains]. rewrite IH. apply orb_true_r.
Qed.

Section Planner.

Variable SYSTEM_PROMPT : pystr.
Variable llm_invoke : list message -> pystr + (pystr * list tool_call).
Variable run_tool : tool_call -> pystr.
Variable recursion_limit : nat.
Variable recursion_error : pystr.
Variable message_str : message -> pystr.

Abbreviation agent_node := (_agent_node SYSTEM_PROMPT llm_invoke).
Abbreviation run := (invoke_from_agent SYSTEM_PROMPT llm_invoke run_tool recursion_error).
Abbreviation generate :=
  (generate_trip_plan SYSTEM_PROMPT llm_invoke run_tool recursion_limit
                      recursion_error message_str).

(** [model_turn query steps state]: in the run for [query] the agent node
    is entered with the conversation [state] after [steps] node
    executions. *)
Inductive model_turn (query : pystr) : nat -> list message -> Prop :=
  | turn_first : model_turn query 0 [HumanMessage query]
  | turn_after_tools steps state content calls :
      model_turn query steps state ->
      llm_invoke (with_system_prompt SYSTEM_PROMPT state) = inr (content, calls) ->
      calls <> [] ->
      model_turn query (S (S steps))
        ((state ++ [AIMessage content calls])
         ++ tool_node run_tool (state ++ [AIMessage content calls])).

(** The model turn of a failing invocation ends the run. *)
Lemma failing_turn_ends (state : list message) (e : pystr) (steps : nat) :
  llm_invoke (with_system_prompt SYSTEM_PROMPT state) = inl e ->
  run (S steps) state = inr (state ++ [AIMessage (error_reply e) []]).
Proof.
  intros H. cbn [invoke_from_agent]. unfold _agent_node. rewrite H.
  unfold tools_condition. now rewrite last_snoc.
Qed.

(** The run from the start passes through every model turn. *)
Lemma run_through_turn (query : pystr) (steps : nat) (state : list message) :
  model_turn query steps state ->
  forall more, run (steps + more) [HumanMessage query] = run more state.
Proof.
  induction 1 as [|steps state content calls _ IH Hllm Hcalls]; intros more.
  - reflexivity.
  - replace (S (S steps) + more)%nat with (steps + S (S more))%nat by lia.
    rewrite IH. cbn [invoke_from_agent]. unfold _agent_node. rewrite Hllm.
    unfold tools_condition. rewrite last_snoc.
    destruct calls as [|c calls]; [contradiction|]. reflexivity.
Qed.

(** C1. If, at a model turn within the step budget, the invocation of the
    model raises, [generate_trip_plan] returns (it does not raise) the
    reply built from the exception: a non-empty text that says that an
    error occurred and asks to try again. *)
Theorem generate_trip_plan_fails_soft (query : pystr) (steps : nat)
    (state : list message) (e : pystr) :
  model_turn query steps state ->
  (steps < recursion_limit)%nat ->
  llm_invoke (with_system_prompt SYSTEM_PROMPT state) = inl e ->
  generate query
    = lit "I encountered an error while processing your request: " ++ e
      ++ lit ". Please try again or rephrase your query."
  /\ generate query <> []
  /\ contains (lit "I encountered an error") (generate query) = true
  /\ contains (lit "Please try again") (generate query) = true.
Proof.
  intros Hturn Hsteps Hraise.
  assert (H : generate query = error_reply e).
  { unfold generate_trip_plan.
    replace recursion_limit with (steps + S (recursion_limit - S steps))%nat by lia.
    rewrite (run_through_turn _ _ _ Hturn).
    rewrite (failing_turn_ends _ _ _ Hraise). now rewrite last_snoc. }
  rewrite H. unfold error_reply. split; [reflexivity|]. split; [discriminate|]. split.
  - apply contains_app_l. reflexivity.
  - apply contains_app_r, contains_app_r. reflexivity.
Qed.

End Planner.

(** A model that cannot be reached, and one that asks for a search before
    it fails. *)
Definition unreachable_model (messages : list message)
  : pystr + (pystr * list tool_call) := inl (lit "Connection refused").

Definition search_call : tool_call :=
  {| call_id := lit "call_1"; tool_name := lit "tavily_search_results_json";
     tool_args := lit "flights Paris Rome" |}.

Definition failing_after_search (messages : list message)
  : pystr + (pystr * list tool_call) :=
  match last messages with
  | Some (ToolMessage _ _) => inl (lit "Rate limit exceeded")
  | _ => inr ([], [search_call])
  end.

Definition no_results (c : tool_call) : pystr := lit "[]".

Definition plain_str (m : message) : pystr :=
  match m with
  | SystemMessage c | HumanMessage c | AIMessage c _ | ToolMessage c _ => c
  end.

Lemma generate_trip_plan_fails_soft_witness :
  generate_trip_plan (lit "You are TripGenie.") unreachable_model no_results 25
    (lit "Recursion limit of 25 reached") plain_str (lit "Plan a trip to Rome")
  = lit "I encountered an error while processing your request: "
    ++ lit "Connection refused"
    ++ lit ". Please try again or rephrase your query.".
Proof.
  apply (generate_trip_plan_fails_soft (lit "You are TripGenie.") unreachable_model
           no_results 25 (lit "Recursion limit of 25 reached") plain_str
           (lit "Plan a trip to Rome") 0 [HumanMessage (lit "Plan a trip to Rome")]).
  - constructor.
  - lia.
  - reflexivity.
Defined.

(** The same when the failure comes at the second model turn. *)
Example fails_soft_after_search :
  generate_trip_plan (lit "You are TripGenie.") failing_after_search no_results 25
    (lit "Recursion limit of 25 reached") plain_str (lit "Plan a trip to Rome")
  = lit "I encountered an error while processing your request: "
    ++ lit "Rate limit exceeded"
    ++ lit ". Please try again or rephrase your query.".
Proof. vm_compute. reflexivity. Qed.

End AgentFacts.

(* ===================================================================== *)
(** * Further properties of the validation layer                          *)
(* ===================================================================== *)

Module ValidatorMore.

Import TripValidator ValidatorFacts.

(** ** Locations *)

Lemma validate_location_ok_true (v : scalar) (field_name : option pystr) (b : bool) :
  validate_location v field_name = Ok b -> b = true.
Proof.
  unfold validate_location.
  destruct (negb (truthy v)); [discriminate|].
  destruct v; try discriminate.
  repeat match goal with
         | |- context [if ?c then _ else _] => destruct c
         end; try discriminate.
  now intros [= <-].
Qed.

(** X1. A string is accepted as a location exactly when, once trimmed, it
    has 2 to 100 characters and none of the characters [<>{}[]\]; every
    other string is rejected with a message that starts with the name of
    the field. *)
Theorem validate_location_accepts (s : pystr) (field_name : option pystr) :
  (validate_location (SStr s) field_name = Ok true
   <-> 2 <= len (strip s) <= 100 /\ existsb suspicious (strip s) = false)
  /\ (validate_location (SStr s) field_name = Ok true
      \/ exists reason,
           validate_location (SStr s) field_name
           = Raise (ValidationError (default (lit "Location") field_name ++ reason))).
Proof.
  unfold validate_location.
  destruct s as [|c s]; cbn [truthy negb].
  - split; [|right; eauto]. split; [discriminate|]. intros [[H _] _].
    change (len (strip [])) with 0 in H. lia.
  - set (t := strip (c :: s)).
    destruct t as [|d t'] eqn:Et; cbn [truthy negb].
    + split; [|right; eauto]. split; [discriminate|]. intros [[H _] _].
      change (len []) with 0 in H. lia.
    + rewrite <- Et. clear Et.
      destruct (Z.ltb_spec (len t) 2); [split; [|right; eauto]|].
      { split; [discriminate|]. intros [[H1 _] _]. lia. }
      destruct (Z.gtb_spec (len t) 100); [split; [|right; eauto]|].
      { split; [discriminate|]. intros [[_ H1] _]. lia. }
      destruct (existsb suspicious t) eqn:Es; [split; [|right; eauto]|].
      { split; [discriminate|]. intros [_ H1]. discriminate. }
      split; [|now left]. split; [|reflexivity]. intros _. split; [lia|reflexivity].
Qed.

Lemma validate_location_accepts_witness :
  validate_location (SStr (lit "  Paris ")) None = Ok true.
Proof.
  apply (validate_location_accepts (lit "  Paris ") None).
  vm_compute. repeat split; discriminate.
Defined.

(** X2. White space around a location does not matter: the check gives
    the same answer, message included, for a string and for the string
    trimmed. *)
Theorem validate_location_ignores_padding (s : pystr) (field_name : option pystr) :
  validate_location (SStr s) field_name
  = validate_location (SStr (strip s)) field_name.
Proof.
  unfold validate_location.
  destruct s as [|c s]; [reflexivity|]. cbn [truthy negb].
  destruct (strip (c :: s)) as [|d t] eqn:Et; [reflexivity|].
  cbn [truthy negb]. rewrite <- Et, strip_idem, Et. cbn [truthy negb]. reflexivity.
Qed.

(** ** Free text *)

Lemma tag_sub_identity (text : pystr) :
  Re.search Re.tag_len text = false -> Re.sub_empty Re.tag_len 0 text = text.
Proof.
  induction text as [|c rest IH]; [reflexivity|].
  rewrite search_cons. intros H. apply orb_false_iff in H as [Hm Hs].
  cbn [Re.sub_empty]. unfold matches in Hm.
  destruct (Re.tag_len (c :: rest)); [discriminate|]. now rewrite (IH Hs).
Qed.

Lemma search_no_gt (text : pystr) :
  existsb Re.is_gt text = false -> Re.search Re.tag_len text = false.
Proof.
  induction text as [|c rest IH]; [reflexivity|].
  intros H. rewrite search_cons, tag_matches.
  simpl in H. apply orb_false_iff in H as [Hc Hrest].
  rewrite (IH Hrest), orb_false_r.
  destruct (c =? ch "<")%N; [|reflexivity]. simpl.
  unfold opens. destruct rest as [|d r]; [reflexivity|].
  rewrite Hrest. apply andb_false_r.
Qed.

(** Text without [>] appended to text without a tag completes no tag. *)
Lemma search_tag_app_no_gt (text more : pystr) :
  Re.search Re.tag_len text = false -> existsb Re.is_gt more = false ->
  Re.search Re.tag_len (text ++ more) = false.
Proof.
  intros H Hmore. induction text as [|c rest IH]; [now apply search_no_gt|].
  rewrite search_cons in H. apply orb_false_iff in H as [Hm Hs].
  rewrite <- app_comm_cons, search_cons, (IH Hs), orb_false_r.
  rewrite tag_matches in Hm |- *.
  destruct (c =? ch "<")%N; [|reflexivity]. simpl in *.
  destruct rest as [|d r].
  - simpl. unfold opens. destruct more as [|m more']; [reflexivity|].
    rewrite Hmore. apply andb_false_r.
  - simpl in *. destruct (Re.is_gt d); [reflexivity|]. simpl in *.
    rewrite existsb_app, Hm, Hmore. reflexivity.
Qed.

Lemma search_tag_take (text : pystr) (n : nat) :
  Re.search Re.tag_len text = false -> Re.search Re.tag_len (take n text) = false.
Proof.
  intros H. rewrite <- (take_drop n text) in H. now apply search_tag_app_l in H.
Qed.

Lemma slice_to_take {A} (l : list A) (n : Z) : exists k, slice_to l n = take k l.
Proof. unfold slice_to. destruct (0 <=? n); eauto. Qed.

Lemma len_app {A} (l1 l2 : list A) : len (l1 ++ l2) = len l1 + len l2.
Proof. unfold len. rewrite length_app. lia. Qed.

Definition cleaned_text (text : pystr) : pystr :=
  strip (Re.sub_empty Re.tag_len 0 text).

Lemma cleaned_no_tag (text : pystr) : Re.search Re.tag_len (cleaned_text text) = false.
Proof. apply strip_no_tag, no_tag_left. Qed.

Lemma sanitize_cases (text : pystr) (max_length : option Z) :
  sanitize_text_input (SStr text) max_length
  = Ok (match text with
        | [] => []
        | _ :: _ =>
            if len (cleaned_text text) >? default 500 max_length
            then slice_to (cleaned_text text) (default 500 max_length) ++ lit "..."
            else cleaned_text text
        end).
Proof.
  unfold sanitize_text_input, cleaned_text. destruct text as [|c text]; [reflexivity|].
  cbn [truthy negb].
  rewrite (script_sub_identity _ (no_tag_left (c :: text) 0)).
  unfold DEFAULT_MAX_LENGTH. now destruct (len _ >? _).
Qed.

(** X3. Whatever the maximum length, the sanitized text holds no HTML tag
    (also after it was cut and the ellipsis was appended); for a maximum
    of at least 0 it is at most 3 characters longer than the maximum. *)
Theorem sanitize_result_clean (text : pystr) (max_length : option Z) :
  exists r,
    sanitize_text_input (SStr text) max_length = Ok r
    /\ Re.search Re.tag_len r = false
    /\ (0 <= default 500 max_length -> len r <= default 500 max_length + 3).
Proof.
  pose proof (sanitize_cases text max_length) as Hr.
  pose proof (cleaned_no_tag text) as Hclean.
  set (limit := default 500 max_length) in *.
  set (cleaned := cleaned_text text) in *.
  eexists. split; [exact Hr|].
  destruct text as [|c text]; [split; [reflexivity|unfold len; simpl; lia]|].
  destruct (Z.gtb_spec (len cleaned) limit) as [Hcut|Hfit].
  - split.
    + destruct (slice_to_take cleaned limit) as [k ->].
      apply search_tag_app_no_gt; [now apply search_tag_take|reflexivity].
    + intros Hpos. rewrite len_app. change (len (lit "...")) with 3.
      unfold slice_to. rewrite (proj2 (Z.leb_le 0 limit)) by exact Hpos.
      unfold len. rewrite length_take. lia.
  - split; [exact Hclean|]. intros _. lia.
Qed.

Lemma sanitize_result_clean_witness :
  exists r,
    sanitize_text_input (SStr (lit "<b>hello</b> world")) (Some 5) = Ok r
    /\ Re.search Re.tag_len r = false
    /\ len r <= 8.
Proof.
  destruct (sanitize_result_clean (lit "<b>hello</b> world") (Some 5))
    as (r & Hr & Hclean & Hlen).
  exists r. split; [exact Hr|]. split; [exact Hclean|].
  apply Hlen. simpl. lia.
Defined.

Lemma strip_head (s : pystr) :
  match strip s with
  | c :: _ => isspace c = false
  | [] => True
  end.
Proof.
  unfold strip. pose proof (lstrip_head s) as H.
  destruct (lstrip s) as [|c t]; [exact I|].
  now rewrite rstrip_cons.
Qed.

Lemma rstrip_snoc (s : pystr) (c : N) :
  isspace c = false -> rstrip (s ++ [c]) = s ++ [c].
Proof.
  intros H. unfold rstrip. rewrite rev_app_distr. simpl. rewrite H.
  simpl. now rewrite rev_involutive.
Qed.

(** Text that starts with no white space, followed by the ellipsis, is
    already trimmed. *)
Lemma strip_with_ellipsis (s : pystr) :
  match s with c :: _ => isspace c = false | [] => True end ->
  strip (s ++ lit "...") = s ++ lit "...".
Proof.
  intros H. unfold strip.
  assert (Hl : lstrip (s ++ lit "...") = s ++ lit "...").
  { destruct s as [|c s]; [reflexivity|]. simpl. now rewrite H. }
  rewrite Hl. change (lit "...") with ([46; 46] ++ [46])%N.
  rewrite app_assoc. now apply rstrip_snoc.
Qed.

(** Sanitizing text that holds no tag and is trimmed only cuts it. *)
Lemma sanitize_clean_text (r : pystr) (max_length : option Z) :
  0 <= default 500 max_length ->
  Re.search Re.tag_len r = false -> strip r = r ->
  sanitize_text_input (SStr r) max_length
  = Ok (if len r >? default 500 max_length
        then slice_to r (default 500 max_length) ++ lit "..."
        else r).
Proof.
  intros Hpos Htag Hstrip. rewrite sanitize_cases.
  destruct r as [|c r].
  - destruct (Z.gtb_spec (len (@nil N)) (default 500 max_length)) as [H|H];
      [|reflexivity].
    change (len []) with 0 in H. lia.
  - unfold cleaned_text. rewrite (tag_sub_identity _ Htag), Hstrip. reflexivity.
Qed.

(** X4. Sanitizing is idempotent for a maximum length of at least 0:
    sanitizing text that was sanitized with the same maximum gives it
    back unchanged. *)
Theorem sanitize_idempotent (text r : pystr) (max_length : option Z) :
  0 <= default 500 max_length ->
  sanitize_text_input (SStr text) max_length = Ok r ->
  sanitize_text_input (SStr r) max_length = Ok r.
Proof.
  intros Hpos H. rewrite sanitize_cases in H. injection H as <-.
  set (limit := default 500 max_length) in *.
  destruct text as [|c text]; [reflexivity|].
  set (cleaned := cleaned_text (c :: text)).
  pose proof (cleaned_no_tag (c :: text)) as Htag. fold cleaned in Htag.
  assert (Hstrip : strip cleaned = cleaned) by apply strip_idem.
  destruct (Z.gtb_spec (len cleaned) limit) as [Hcut|Hfit].
  - unfold slice_to. rewrite (proj2 (Z.leb_le 0 limit)) by exact Hpos.
    set (n := Z.to_nat limit).
    assert (Hn : length (take n cleaned) = n).
    { rewrite length_take. unfold len in Hcut. lia. }
    rewrite sanitize_clean_text; [| exact Hpos | |].
    + fold limit. rewrite len_app. change (len (lit "...")) with 3.
      unfold len at 1. rewrite Hn.
      rewrite (proj2 (Z.gtb_gt (Z.of_nat n + 3) limit)) by lia.
      unfold slice_to. rewrite (proj2 (Z.leb_le 0 limit)) by exact Hpos.
      fold n. now rewrite (take_app_length' _ _ _ (eq_sym Hn)).
    + apply search_tag_app_no_gt; [now apply search_tag_take|reflexivity].
    + apply strip_with_ellipsis.
      pose proof (strip_head (Re.sub_empty Re.tag_len 0 (c :: text))) as Hh.
      fold (cleaned_text (c :: text)) in Hh. fold cleaned in Hh.
      destruct cleaned as [|d t]; [now destruct n|].
      destruct n; [exact I|exact Hh].
  - rewrite sanitize_clean_text by assumption. fold limit.
    destruct (Z.gtb_spec (len cleaned) limit); [lia|reflexivity].
Qed.

Lemma sanitize_idempotent_witness :
  sanitize_text_input (SStr (lit "hello...")) (Some 5) = Ok (lit "hello...").
Proof.
  apply (sanitize_idempotent (lit "<b>hello</b> world") (lit "hello...") (Some 5)).
  - simpl. lia.
  - reflexivity.
Defined.

(** ** The composite validator *)

Lemma bind_ok {A B} (r : result A) (k : A -> result B) (b : B) :
  Py.bind r k = Ok b -> exists a, r = Ok a /\ k a = Ok b.
Proof. destruct r as [a|e]; simpl; [eauto|discriminate]. Qed.

Lemma validate_people_count_ok_true (v : scalar) (b : bool) :
  validate_people_count v = Ok b -> b = true.
Proof.
  unfold validate_people_count. destruct (as_int v) as [n|]; [|discriminate].
  destruct (n <? 1); [discriminate|]. destruct (n >? 50); [discriminate|].
  now intros [= <-].
Qed.

Lemma validate_days_ok_true (v : scalar) (b : bool) :
  validate_days v = Ok b -> b = true.
Proof.
  unfold validate_days. destruct (as_int v) as [n|]; [|discriminate].
  destruct (n <? 1); [discriminate|]. destruct (n >? 365); [discriminate|].
  now intros [= <-].
Qed.

(** A field that passes the location check is present and not empty. *)
Lemma valid_location_present (trip_data : pydict) (key : string)
    (field_name : option pystr) (b : bool) :
  validate_location (get_or trip_data key (SStr [])) field_name = Ok b ->
  truthy (get trip_data key) = true.
Proof.
  unfold get, get_or, validate_location.
  destruct (trip_data !! key) as [v|]; [|discriminate].
  destruct (truthy v); [reflexivity|discriminate].
Qed.

Section CompositeMore.

Variable lower : pystr -> pystr.

Lemma validate_same_location_ok_true (a b : scalar) (r : bool) :
  validate_same_location lower a b = Ok r -> r = true.
Proof.
  unfold validate_same_location. destruct a, b; try discriminate.
  destruct (str_eqb _ _); [discriminate|]. now intros [= <-].
Qed.

Lemma collect_ok_nil (errors : list pystr) (check : result bool) :
  collect errors check = Ok [] -> errors = [] /\ exists b, check = Ok b.
Proof.
  destruct check as [b|[msg| |]]; simpl; try discriminate.
  - intros [= ->]. eauto.
  - intros [= H]. now destruct errors.
Qed.

(** X5. The composite validator returns normally exactly when every
    single check passes: then the departure and the destination are valid
    locations that differ, the people count and the day count are in
    range, and what is returned, which is also what the caller's
    dictionary has become, is the bundle with its notes sanitized.
    Conversely, when the five checks pass (and the notes, if any, are a
    string or empty) the call returns normally. *)
Theorem validate_complete_accepts (trip_data : pydict) :
  let passes :=
    validate_location (get_or trip_data "from_city" (SStr []))
                      (Some (lit "Departure location")) = Ok true
    /\ validate_location (get_or trip_data "to_city" (SStr []))
                         (Some (lit "Destination")) = Ok true
    /\ validate_same_location lower (get trip_data "from_city")
                                    (get trip_data "to_city") = Ok true
    /\ validate_people_count (get_or trip_data "people" (SInt 0)) = Ok true
    /\ validate_days (get_or trip_data "days" (SInt 0)) = Ok true in
  (forall returned,
     snd (validate_complete_trip_input lower trip_data) = Ok returned ->
     passes
     /\ returned = with_sanitized_notes trip_data
     /\ fst (validate_complete_trip_input lower trip_data) = returned)
  /\ (passes -> field_textual trip_data "notes" = true ->
      validate_complete_trip_input lower trip_data
      = (with_sanitized_notes trip_data, Ok (with_sanitized_notes trip_data))).
Proof.
  intros passes. subst passes. split.
  - intros returned. unfold validate_complete_trip_input.
    match goal with
    | |- context [match ?c with Ok _ => _ | Raise _ => _ end] =>
        destruct c as [errors|e] eqn:Hchecks
    end; [|discriminate].
    assert (Hnotes : forall d,
      match trip_data !! "notes" with
      | Some notes =>
          notes <- sanitize_text_input notes (Some 1000) ;;
          Ok (<["notes" := SStr notes]> trip_data)
      | None => Ok trip_data
      end = Ok d -> d = with_sanitized_notes trip_data).
    { intros d. unfold with_sanitized_notes.
      destruct (trip_data !! "notes") as [notes|]; [|now intros [= <-]].
      destruct (sanitize_text_input notes (Some 1000)); simpl;
        [now intros [= <-]|discriminate]. }
    destruct (match trip_data !! "notes" with Some _ => _ | None => _ end)
      as [d|e]; [|discriminate].
    specialize (Hnotes d eq_refl). subst d.
    destruct errors as [|m errors]; [|discriminate].
    cbn [fst snd]. intros [= <-]. split; [|split; reflexivity].
    apply bind_ok in Hchecks as (e1 & H1 & Hchecks).
    apply bind_ok in Hchecks as (e2 & H2 & Hchecks).
    apply bind_ok in Hchecks as (e3 & H3 & Hchecks).
    apply bind_ok in Hchecks as (e4 & H4 & H5).
    apply collect_ok_nil in H5 as (-> & b5 & H5).
    apply collect_ok_nil in H4 as (-> & b4 & H4).
    assert (Hguard : e2 = [] /\
      (truthy (get trip_data "from_city") && truthy (get trip_data "to_city") = true ->
       exists b, validate_same_location lower (get trip_data "from_city")
                                              (get trip_data "to_city") = Ok b)).
    { destruct (truthy (get trip_data "from_city") && truthy (get trip_data "to_city")).
      - apply collect_ok_nil in H3 as (-> & b3 & H3). eauto.
      - injection H3 as ->. split; [reflexivity|discriminate]. }
    destruct Hguard as (-> & Hsame).
    apply collect_ok_nil in H2 as (-> & b2 & H2).
    apply collect_ok_nil in H1 as (_ & b1 & H1).
    destruct Hsame as [b3 H3'].
    { rewrite (valid_location_present _ _ _ _ H1),
              (valid_location_present _ _ _ _ H2). reflexivity. }
    rewrite (validate_location_ok_true _ _ _ H1) in H1.
    rewrite (validate_location_ok_true _ _ _ H2) in H2.
    rewrite (validate_same_location_ok_true _ _ _ H3') in H3'.
    rewrite (validate_people_count_ok_true _ _ H4) in H4.
    rewrite (validate_days_ok_true _ _ H5) in H5.
    repeat split; assumption.
  - intros (H1 & H2 & H3 & H4 & H5) Hnotes.
    unfold validate_complete_trip_input.
    rewrite H1, H2, H3, H4, H5. cbn [collect Py.bind].
    assert (Hguard :
      (if truthy (get trip_data "from_city") && truthy (get trip_data "to_city")
       then Ok [] else Ok []) = @Ok (list pystr) []) by now destruct (_ && _).
    rewrite Hguard. cbn [collect Py.bind].
    unfold with_sanitized_notes.
    destruct (trip_data !! "notes") as [notes|] eqn:En; [|reflexivity].
    destruct (sanitize_textual notes (Some 1000)) as [s Hs].
    { unfold field_textual in Hnotes. now rewrite En in Hnotes. }
    rewrite Hs. reflexivity.
Qed.

End CompositeMore.

Definition paris_to_rome : pydict :=
  list_to_map [("from_city", SStr (lit "Paris")); ("to_city", SStr (lit "Rome"));
               ("people", SInt 2); ("days", SInt 7);
               ("notes", SStr (lit "<i>vegetarian</i>"))].

Lemma validate_complete_accepts_witness :
  validate_complete_trip_input ascii_lower paris_to_rome
  = (<["notes" := SStr (lit "vegetarian")]> paris_to_rome,
     Ok (<["notes" := SStr (lit "vegetarian")]> paris_to_rome)).
Proof.
  apply (proj2 (validate_complete_accepts ascii_lower paris_to_rome)).
  - repeat split; reflexivity.
  - reflexivity.
Defined.

End ValidatorMore.

(* ===================================================================== *)
(** * utils/validators.py: dates; utils/formatters.py: truncation         *)
(* ===================================================================== *)

Module DateRange.

(** A naive [datetime] as the number of microseconds since the first
    instant of the calendar; a day has no leap second. *)
Definition DAY : Z := 86400 * 1000000.

(** [d.replace(hour=0, minute=0, second=0, microsecond=0)]. *)
Definition midnight (d : Z) : Z := d - d mod DAY.

(** [(later - earlier).days]: whole days, rounded down. *)
Definition days_between (earlier later : Z) : Z := (later - earlier) / DAY.

(** [clock] is the reading of [datetime.now()]. *)
Definition validate_date_range (clock start_date end_date : Z) : result bool :=
  let now := midnight clock in
  if start_date <? now then
    Raise (ValidationError (lit "Start date cannot be in the past"))
  else if end_date <=? start_date then
    Raise (ValidationError (lit "End date must be after start date"))
  else if days_between start_date end_date >? 365 then
    Raise (ValidationError (lit "Trip duration exceeds 365 days"))
  else Ok true.

End DateRange.

Module Formatters.

(** [truncate_text(text, max_length=100, suffix="...")]. *)
Definition truncate_text (text : pystr) (max_length : option Z)
    (suffix : option pystr) : pystr :=
  let max_length := default 100 max_length in
  let suffix := default (lit "...") suffix in
  if len text <=? max_length then text
  else slice_to text (max_length - len suffix) ++ suffix.

End Formatters.

Module DateAndFormatFacts.

Import DateRange Formatters.

(** X6. A date range is accepted exactly when it starts no earlier than
    the midnight that began today, ends after it starts, and is shorter
    than 366 days: whole days are counted, so 365 days and some hours are
    accepted, and so is a start earlier today. *)
Theorem validate_date_range_accepts (clock start_date end_date : Z) :
  (validate_date_range clock start_date end_date = Ok true
   <-> midnight clock <= start_date /\ start_date < end_date
       /\ end_date - start_date < 366 * DAY)
  /\ midnight clock <= clock < midnight clock + DAY.
Proof.
  assert (Hday : 0 < DAY) by reflexivity.
  split.
  - unfold validate_date_range, days_between.
    destruct (Z.ltb_spec start_date (midnight clock)).
    { split; [discriminate|lia]. }
    destruct (Z.leb_spec end_date start_date).
    { split; [discriminate|lia]. }
    destruct (Z.gtb_spec ((end_date - start_date) / DAY) 365) as [Hlong|Hshort].
    + split; [discriminate|]. intros (_ & _ & Hlt).
      assert ((end_date - start_date) / DAY < 366)
        by (apply Z.div_lt_upper_bound; lia).
      lia.
    + split; [|reflexivity]. intros _. repeat split; try lia.
      assert (~ 366 * DAY <= end_date - start_date); [|lia].
      intros Hge. apply (Z.div_le_mono _ _ DAY Hday) in Hge.
      rewrite Z.div_mul in Hge by lia. lia.
  - unfold midnight. pose proof (Z.mod_pos_bound clock DAY Hday). lia.
Qed.

Lemma validate_date_range_accepts_witness :
  validate_date_range (10 * DAY + 3600000000) (10 * DAY + 60000000)
                      (375 * DAY + 82800000000) = Ok true.
Proof.
  apply (validate_date_range_accepts (10 * DAY + 3600000000) (10 * DAY + 60000000)
           (375 * DAY + 82800000000)).
  vm_compute. repeat split; discriminate.
Defined.

(** X7. With a suffix that fits into the maximum length, the truncated
    text is never longer than the maximum: its length is the smaller of
    the length of the text and the maximum. *)
Theorem truncate_text_length (text suffix : pystr) (max_length : Z) :
  len suffix <= max_length ->
  len (truncate_text text (Some max_length) (Some suffix))
  = Z.min (len text) max_length.
Proof.
  intros Hfit. unfold truncate_text. simpl default.
  destruct (Z.leb_spec (len text) max_length) as [Hshort|Hlong]; [lia|].
  unfold len in *. rewrite length_app. unfold slice_to.
  rewrite (proj2 (Z.leb_le 0 _)) by lia.
  rewrite length_take. lia.
Qed.

Lemma truncate_text_length_witness :
  len (truncate_text (lit "A week in Lisbon") (Some 10) (Some (lit "..."))) = 10.
Proof.
  apply (truncate_text_length (lit "A week in Lisbon") (lit "...") 10).
  vm_compute. discriminate.
Defined.

(** When the suffix is longer than the maximum, the bound is lost. *)
Example truncate_text_short_maximum :
  truncate_text (lit "abcdef") (Some 2) (Some (lit "...")) = lit "abcde...".
Proof. reflexivity. Qed.

End DateAndFormatFacts.

(* ===================================================================== *)
(** * Further properties of the trip archive                              *)
(* ===================================================================== *)

Module StorageMore.

Import TripStorage StorageFacts.

(** ** Records and dictionaries *)

Lemma to_dict_of_from_dict (data : pydict) (r : TripRecord.t) :
  TripRecord.from_dict data = Some r -> TripRecord.to_dict r = data.
Proof.
  unfold TripRecord.from_dict.
  destruct (data !! "id") as [v1|] eqn:E1; [|discriminate].
  destruct (data !! "timestamp") as [v2|] eqn:E2; [|discriminate].
  destruct (data !! "from_city") as [v3|] eqn:E3; [|discriminate].
  destruct (data !! "to_city") as [v4|] eqn:E4; [|discriminate].
  destruct (data !! "days") as [v5|] eqn:E5; [|discriminate].
  destruct (data !! "people") as [v6|] eqn:E6; [|discriminate].
  destruct (data !! "group_type") as [v7|] eqn:E7; [|discriminate].
  destruct (data !! "trip_plan") as [v8|] eqn:E8; [|discriminate].
  cbn [mbind option_bind]. case_bool_decide as Hsize; [|discriminate].
  intros [= <-]. apply map_subseteq_size_eq.
  - unfold TripRecord.to_dict. cbn.
    repeat (apply insert_subseteq_l; [assumption|]).
    apply map_empty_subseteq.
  - rewrite Hsize. reflexivity.
Qed.

(** X8. A record and its dictionary determine each other: building the
    record from its own dictionary gives the record back, and a
    dictionary from which a record can be built (it has the eight fields
    and nothing else) is the dictionary of that record. *)
Theorem record_dict_round_trip :
  (forall r, TripRecord.from_dict (TripRecord.to_dict r) = Some r)
  /\ (forall data r,
        TripRecord.from_dict data = Some r -> TripRecord.to_dict r = data).
Proof. split; [apply from_dict_to_dict|apply to_dict_of_from_dict]. Qed.

Lemma record_dict_round_trip_witness :
  TripRecord.to_dict to_rome = TripRecord.to_dict to_rome
  /\ TripRecord.from_dict (<["rating" := SInt 5]> (TripRecord.to_dict to_rome)) = None.
Proof.
  split.
  - apply (proj2 record_dict_round_trip (TripRecord.to_dict to_rome) to_rome).
    reflexivity.
  - reflexivity.
Defined.

(** ** Saving and deleting leave the other records alone *)

Lemma eq_str_unique (v : scalar) (a b : pystr) :
  eq_str v a = true -> eq_str v b = true -> a = b.
Proof.
  destruct v; try discriminate. unfold eq_str, str_eqb.
  intros Ha Hb. apply bool_decide_eq_true_1 in Ha, Hb. congruence.
Qed.

Lemma to_dict_id (r : TripRecord.t) :
  get (TripRecord.to_dict r) "id" = TripRecord.id r.
Proof. destruct r. reflexivity. Qed.

Lemma scan_app_new (other : pystr) (data : list entry) (record : pydict) :
  eq_str (get record "id") other = false ->
  scan other (data ++ [EDict record]) = scan other data.
Proof.
  intros Hne. induction data as [|[r|] data IH]; simpl.
  - now rewrite Hne.
  - destruct (eq_str (get r "id") other); [reflexivity|exact IH].
  - reflexivity.
Qed.

Lemma scan_without_other (trip_id other : pystr) (data kept : list entry) :
  other <> trip_id -> without trip_id data = Some kept ->
  scan other kept = scan other data.
Proof.
  intros Hne. revert kept.
  induction data as [|[r|] data IH]; simpl; intros kept H.
  - now injection H as <-.
  - destruct (without trip_id data) as [kept'|]; simpl in H; [|discriminate].
    specialize (IH kept' eq_refl).
    destruct (eq_str (get r "id") trip_id) eqn:E; simpl in H; injection H as <-.
    + destruct (eq_str (get r "id") other) eqn:E'; [|exact IH].
      elim Hne. symmetry. eapply eq_str_unique; eassumption.
    + simpl. now rewrite IH.
  - discriminate.
Qed.

(** X9. A save or a delete that succeeds does not disturb the records
    with other ids: looking up any other id gives what it gave before. *)
Theorem other_trips_untouched (st : storage) (other : pystr) :
  (forall now_id now_stamp from_city to_city days people group_type trip_plan
          trip_id st',
     save_trip now_id now_stamp from_city to_city days people group_type
               trip_plan st = (Some trip_id, st') ->
     other <> trip_id -> get_trip other st' = get_trip other st)
  /\ (forall trip_id st',
        delete_trip trip_id st = (true, st') ->
        other <> trip_id -> get_trip other st' = get_trip other st).
Proof.
  split.
  - intros now_id now_stamp from_city to_city days people group_type trip_plan
           trip_id st' Hsave Hne.
    apply save_trip_inv in Hsave as (-> & _ & data & Hread & Hcontent).
    unfold get_trip. rewrite Hread. unfold _read_data. rewrite Hcontent.
    unfold as_entry. apply scan_app_new. rewrite to_dict_id. cbn [new_record TripRecord.id].
    unfold eq_str, str_eqb. apply bool_decide_eq_false_2. congruence.
  - intros trip_id st' Hdel Hne. unfold delete_trip in Hdel.
    unfold get_trip at 2.
    destruct (_read_data st) as [data|]; [|discriminate].
    destruct (without trip_id data) as [kept|] eqn:Hkept; [|discriminate].
    destruct (len kept <? len data); [|discriminate].
    unfold _write_data in Hdel. destruct (writable st); [|discriminate].
    injection Hdel as <-. unfold get_trip. cbn [_read_data content].
    now apply (scan_without_other trip_id).
Qed.

Lemma other_trips_untouched_witness :
  get_trip (Clock.strftime_id noon_early)
    (snd (save_trip evening evening (lit "Osaka") (lit "Kyoto") 2 4
                    (lit "Family") (lit "Plan for Kyoto")
                    {| content := stored [to_rome]; writable := true |}))
  = get_trip (Clock.strftime_id noon_early)
      {| content := stored [to_rome]; writable := true |}.
Proof.
  eapply (proj1 (other_trips_untouched
                   {| content := stored [to_rome]; writable := true |}
                   (Clock.strftime_id noon_early))).
  - reflexivity.
  - vm_compute. discriminate.
Defined.

(** ** Failures *)






Lemma without_kept (trip_id : pystr) (data kept : list entry) :
  without trip_id data = Some kept -> without trip_id kept = Some kept.
Proof.
  revert kept. induction data as [|[r|] data IH]; simpl; intros kept H.
  - now injection H as <-.
  - destruct (without trip_id data) as [kept'|]; simpl in H; [|discriminate].
    specialize (IH kept' eq_refl).
    destruct (eq_str (get r "id") trip_id) eqn:E; simpl in H; injection H as <-.
    + exact IH.
    + simpl. now rewrite IH, E.
  - discriminate.
Qed.

(** X12. Deleting is done once and for all: after a delete that
    succeeded, deleting the same id again reports false and changes
    nothing. *)
Theorem delete_trip_twice (trip_id : pystr) (st st' : storage) :
  delete_trip trip_id st = (true, st') ->
  delete_trip trip_id st' = (false, st').
Proof.
  unfold delete_trip at 1.
  destruct (_read_data st) as [data|]; [|discriminate].
  destruct (without trip_id data) as [kept|] eqn:Hkept; [|discriminate].
  destruct (len kept <? len data); [|discriminate].
  unfold _write_data. destruct (writable st); [|discriminate].
  intros [= <-]. unfold delete_trip. cbn [_read_data content].
  rewrite (without_kept _ _ _ Hkept). now rewrite Z.ltb_irrefl.
Qed.

Lemma delete_trip_twice_witness :
  delete_trip (Clock.strftime_id noon_early)
    {| content := stored [to_kyoto]; writable := true |}
  = (false, {| content := stored [to_kyoto]; writable := true |}).
Proof.
  apply (delete_trip_twice (Clock.strftime_id noon_early)
           {| content := stored [to_rome; to_kyoto]; writable := true |}).
  reflexivity.
Defined.




(** ** Listing *)

Lemma slice_to_map {A B} (f : A -> B) (l : list A) (n : Z) :
  slice_to (map f l) n = map f (slice_to l n).
Proof.
  unfold slice_to, len. rewrite length_map.
  destruct (0 <=? n); apply firstn_map.
Qed.

(** The listing of a file of well-formed records, for every limit. *)
Lemma get_all_trips_stored (records : list TripRecord.t) (w : bool) :
  Forall stamped records ->
  exists listing,
    Permutation records listing
    /\ StronglySorted newest_first listing
    /\ forall limit,
         get_all_trips limit {| content := stored records; writable := w |}
         = match limit_given limit with
           | Some n => slice_to listing n
           | None => listing
           end.
Proof.
  intros Hall.
  destruct (sort_desc_total (map as_keyed records)) as [sorted Hsorted].
  { rewrite Forall_map. eapply Forall_impl; [exact Hall|].
    intros r [s Hs]. exists s. exact Hs. }
  pose proof (sort_desc_perm _ _ Hsorted) as Hperm.
  pose proof (sort_desc_sorted _ _ Hsorted) as Hord.
  destruct (Permutation_map_inv _ _ (Permutation_sym Hperm))
    as (listing & -> & Hperm').
  exists listing. split; [now apply Permutation_sym|].
  split; [now apply sorted_as_keyed|].
  intros limit. unfold get_all_trips. cbn [_read_data content stored].
  rewrite sort_keys_records. cbn [mbind option_bind].
  rewrite Hsorted. cbn [mbind option_bind].
  rewrite map_map. cbn [as_keyed snd].
  change (map (fun x => TripRecord.to_dict x) listing)
    with (map TripRecord.to_dict listing).
  destruct (limit_given limit) as [n|].
  - now rewrite slice_to_map, mapM_from_dict.
  - now rewrite mapM_from_dict.
Qed.

(** X13. A positive limit bounds the listing, whatever the file holds. *)
Theorem get_all_trips_at_most (n : Z) (st : storage) :
  0 < n -> len (get_all_trips (Some n) st) <= n.
Proof.
  intros Hn. unfold get_all_trips, limit_given.
  rewrite (proj2 (Z.eqb_neq n 0)) by lia.
  destruct (_read_data st) as [data|]; [|unfold len; simpl; lia].
  destruct (_ ≫= _) as [sorted|]; [|unfold len; simpl; lia].
  destruct (mapM TripRecord.from_dict (slice_to sorted n)) as [records|] eqn:E;
    [|unfold len; simpl; lia].
  apply length_mapM in E. unfold len. rewrite <- E.
  unfold slice_to. rewrite (proj2 (Z.leb_le 0 n)) by lia.
  rewrite length_take. lia.
Qed.

Lemma get_all_trips_at_most_witness :
  len (get_all_trips (Some 1)
         {| content := stored [to_rome; to_kyoto]; writable := true |}) <= 1.
Proof.
  apply (get_all_trips_at_most 1
           {| content := stored [to_rome; to_kyoto]; writable := true |}).
  lia.
Defined.

(** X14. On a file of well-formed records a limit other than 0 cuts the
    newest-first listing and does nothing else: the limited listing is
    the slice [[:limit]] of the unlimited one (its first [limit] records,
    or all but the last [-limit] for a negative limit). *)
Theorem get_all_trips_limit_is_slice (records : list TripRecord.t) (w : bool) (n : Z) :
  Forall stamped records -> n <> 0 ->
  get_all_trips (Some n) {| content := stored records; writable := w |}
  = slice_to (get_all_trips None {| content := stored records; writable := w |}) n.
Proof.
  intros Hall Hn.
  destruct (get_all_trips_stored records w Hall) as (listing & _ & _ & Hlist).
  rewrite !Hlist. unfold limit_given.
  now rewrite (proj2 (Z.eqb_neq n 0)) by exact Hn.
Qed.

Lemma get_all_trips_limit_is_slice_witness :
  get_all_trips (Some 1) {| content := stored [to_rome; to_kyoto]; writable := true |}
  = slice_to
      (get_all_trips None {| content := stored [to_rome; to_kyoto]; writable := true |})
      1.
Proof.
  apply (get_all_trips_limit_is_slice [to_rome; to_kyoto] true 1).
  - repeat constructor; eexists; reflexivity.
  - discriminate.
Defined.

Lemma in_slice_to {A} (x : A) (l : list A) (n : Z) : In x (slice_to l n) -> In x l.
Proof.
  unfold slice_to. intros H.
  destruct (0 <=? n);
    match type of H with
    | In _ (take ?k _) => rewrite <- (take_drop k l); apply in_or_app; now left
    end.
Qed.

Lemma scan_records (records : list TripRecord.t) (r : TripRecord.t) (s : pystr) :
  NoDup (map TripRecord.id records) -> In r records -> TripRecord.id r = SStr s ->
  scan s (map as_entry records) = Some r.
Proof.
  intros Hnodup Hin Hid. induction records as [|r0 rest IH]; [destruct Hin|].
  simpl in Hnodup. apply NoDup_cons in Hnodup as [Hfresh Hnodup].
  cbn [map as_entry scan]. rewrite to_dict_id.
  destruct Hin as [->|Hin].
  - rewrite Hid. cbn [eq_str]. rewrite str_eqb_refl. apply from_dict_to_dict.
  - destruct (eq_str (TripRecord.id r0) s) eqn:E.
    + exfalso. apply Hfresh.
      destruct (TripRecord.id r0) as [| | |t] eqn:E0; try discriminate.
      unfold eq_str, str_eqb in E. apply bool_decide_eq_true_1 in E. subst t.
      rewrite <- Hid. apply list_elem_of_In, in_map, Hin.
    + now apply IH.
Qed.

(** X15. Listing and lookup agree.  On a file of well-formed records with
    distinct ids, every record of a listing, whatever the limit, is the
    one that a lookup of its id returns. *)
Theorem listed_trips_can_be_fetched (records : list TripRecord.t) (w : bool)
    (limit : option Z) (r : TripRecord.t) (s : pystr) :
  Forall stamped records ->
  NoDup (map TripRecord.id records) ->
  In r (get_all_trips limit {| content := stored records; writable := w |}) ->
  TripRecord.id r = SStr s ->
  get_trip s {| content := stored records; writable := w |} = Some r.
Proof.
  intros Hall Hnodup Hin Hid.
  destruct (get_all_trips_stored records w Hall) as (listing & Hperm & _ & Hlist).
  rewrite Hlist in Hin.
  assert (Hr : In r records).
  { apply (Permutation_in _ (Permutation_sym Hperm)).
    destruct (limit_given limit); [now apply in_slice_to in Hin|exact Hin]. }
  unfold get_trip. cbn [_read_data content stored].
  now apply scan_records.
Qed.

Lemma listed_trips_can_be_fetched_witness :
  get_trip (Clock.strftime_id evening)
    {| content := stored [to_rome; to_kyoto]; writable := true |}
  = Some to_kyoto.
Proof.
  apply (listed_trips_can_be_fetched [to_rome; to_kyoto] true (Some 1)).
  - repeat constructor; eexists; reflexivity.
  - apply NoDup_ListNoDup. repeat constructor; simpl; intuition discriminate.
  - vm_compute. now left.
  - reflexivity.
Defined.

(** X16. A successful save adds exactly one record to the listing: on a
    file of well-formed records the unlimited listing afterwards holds
    the old records and the new one, newest first. *)
Theorem save_trip_extends_listing now_id now_stamp from_city to_city days people
    group_type trip_plan (records : list TripRecord.t) (trip_id : pystr)
    (st' : storage) :
  Forall stamped records ->
  save_trip now_id now_stamp from_city to_city days people group_type trip_plan
            {| content := stored records; writable := true |}
  = (Some trip_id, st') ->
  Permutation
    (new_record now_id now_stamp from_city to_city days people group_type trip_plan
     :: records)
    (get_all_trips None st')
  /\ length (get_all_trips None st') = S (length records)
  /\ StronglySorted newest_first (get_all_trips None st').
Proof.
  intros Hall Hsave.
  set (saved := new_record now_id now_stamp from_city to_city days people
                           group_type trip_plan) in *.
  assert (Hst' : st' = {| content := stored (records ++ [saved]); writable := true |}).
  { unfold save_trip, _write_data in Hsave. cbn in Hsave.
    injection Hsave as _ <-. unfold stored. now rewrite map_app. }
  subst st'.
  destruct (get_all_trips_stored (records ++ [saved]) true)
    as (listing & Hperm & Hord & Hlist).
  { apply Forall_app. split; [exact Hall|]. repeat constructor. eexists. reflexivity. }
  rewrite (Hlist None). cbn [limit_given].
  assert (Hp : Permutation (saved :: records) listing).
  { rewrite <- Hperm. apply Permutation_cons_append. }
  split; [exact Hp|]. split; [|exact Hord].
  apply Permutation_length in Hp. simpl in Hp. now rewrite <- Hp.
Qed.

Lemma save_trip_extends_listing_witness :
  length (get_all_trips None
            (snd (save_trip evening evening (lit "Osaka") (lit "Kyoto") 2 4
                            (lit "Family") (lit "Plan for Kyoto")
                            {| content := stored [to_rome]; writable := true |})))
  = 2%nat.
Proof.
  eapply (save_trip_extends_listing evening evening (lit "Osaka") (lit "Kyoto") 2 4
            (lit "Family") (lit "Plan for Kyoto") [to_rome]).
  - repeat constructor; eexists; reflexivity.
  - reflexivity.
Defined.

End StorageMore.

(* ===================================================================== *)
(** * Further properties of the geocoder                                  *)
(* ===================================================================== *)

Module LocationMore.

Import LocationService.

Section GeocoderMore.

Variable pyfloat : Type.
Variable to_float : scalar -> option pyfloat.
Variable http_get : request -> list request -> response * Z.

Abbreviation search := (LocationService.search pyfloat to_float http_get).

(** The request that [search] sends for a query. *)
Definition request_for (query : pystr) (w : world) : request :=
  {| url := base_url w; param_q := strip query; param_limit := max_results w;
     user_agent := agent w; timeout := request_timeout w |}.

Lemma not_blank (query : pystr) :
  forallb isspace query = false ->
  negb (truthy (SStr query)) || negb (truthy (SStr (strip query))) = false.
Proof.
  intros H. destruct query as [|c query]; [discriminate|]. cbn [truthy negb orb].
  destruct (strip (c :: query)) eqn:E; [|reflexivity].
  apply ValidatorFacts.strip_nil in E. congruence.
Qed.

(** The state in which a search with text in its query ends. *)
Lemma search_world (query : pystr) (w : world) :
  forallb isspace query = false ->
  exists duration,
    snd (search query w)
    = with_call (_respect_rate_limit w) (request_for query w) duration.
Proof.
  intros H. unfold LocationService.search. rewrite (not_blank _ H).
  change {| url := base_url (_respect_rate_limit w); param_q := strip query;
            param_limit := max_results (_respect_rate_limit w);
            user_agent := agent (_respect_rate_limit w);
            timeout := request_timeout (_respect_rate_limit w) |}
    with (request_for query w).
  destruct (http_get (request_for query w) (calls (_respect_rate_limit w)))
    as [answer duration].
  exists duration.
  destruct answer as [| | |[|] [results|]]; try reflexivity.
  now destruct (mapM _ results).
Qed.

(** X17. A query with text in it costs exactly one call on the transport,
    whatever the answer: the call carries the trimmed query, the
    configured result limit, client name and time-out, and no second call
    (no retry) is made. *)
Theorem search_calls_once (query : pystr) (w : world) :
  forallb isspace query = false ->
  calls (snd (search query w)) = calls w ++ [request_for query w].
Proof.
  intros H. destruct (search_world query w H) as [duration ->]. reflexivity.
Qed.

Lemma converted_each (results : list Location.raw)
    (locations : list (Location.t pyfloat)) :
  Forall2 (fun raw l => Location.from_nominatim pyfloat to_float raw = Some l)
          results locations ->
  forall raw, In raw results ->
    exists l, Location.from_nominatim pyfloat to_float raw = Some l.
Proof.
  induction 1 as [|raw0 l0 results locations H0 _ IH]; intros raw Hin;
    [destruct Hin|].
  destruct Hin as [<-|Hin]; [eauto|now apply IH].
Qed.

(** X18. A search answers all or nothing.  Its result is empty, or the
    transport answered the request of this search with a success status
    and a list of raw results, and the result holds the location of each
    of them, in order.  One raw result that cannot be converted empties
    the whole answer. *)
Theorem search_all_or_nothing (query : pystr) (w : world) :
  (fst (search query w) = []
   \/ exists results,
        fst (http_get (request_for query w) (calls w)) = Http true (Some results)
        /\ Forall2 (fun raw l => Location.from_nominatim pyfloat to_float raw = Some l)
                   results (fst (search query w)))
  /\ (forall results raw,
        fst (http_get (request_for query w) (calls w)) = Http true (Some results) ->
        In raw results ->
        Location.from_nominatim pyfloat to_float raw = None ->
        fst (search query w) = []).
Proof.
  unfold LocationService.search.
  destruct (_ || _); [split; [now left|reflexivity]|].
  change {| url := base_url (_respect_rate_limit w); param_q := strip query;
            param_limit := max_results (_respect_rate_limit w);
            user_agent := agent (_respect_rate_limit w);
            timeout := request_timeout (_respect_rate_limit w) |}
    with (request_for query w).
  change (calls (_respect_rate_limit w)) with (calls w).
  destruct (http_get (request_for query w) (calls w)) as [answer duration].
  cbn [fst].
  destruct answer as [| | |[|] [results|]];
    try (split; [now left|reflexivity]).
  destruct (mapM _ results) as [locations|] eqn:Em;
    [|split; [now left|reflexivity]].
  apply mapM_Some in Em. split.
  - right. exists results. split; [reflexivity|exact Em].
  - intros results' raw [= <-] Hin Hnone.
    destruct (converted_each _ _ Em raw Hin) as [l Hl]. congruence.
Qed.

(** X19. The rate limit, with the clock counted in ticks: every search
    that reaches the transport moves the timer of the last request
    forward by at least the configured delay, and sets it no later than
    the clock. *)
Theorem search_respects_rate_limit (query : pystr) (w : world) :
  forallb isspace query = false ->
  0 <= snd (http_get (request_for query w) (calls w)) ->
  _last_request_time w + rate_limit_delay w
    <= _last_request_time (snd (search query w))
  /\ _last_request_time (snd (search query w)) <= now (snd (search query w)).
Proof.
  intros H Hduration. unfold LocationService.search. rewrite (not_blank _ H).
  change {| url := base_url (_respect_rate_limit w); param_q := strip query;
            param_limit := max_results (_respect_rate_limit w);
            user_agent := agent (_respect_rate_limit w);
            timeout := request_timeout (_respect_rate_limit w) |}
    with (request_for query w).
  change (calls (_respect_rate_limit w)) with (calls w).
  destruct (http_get (request_for query w) (calls w)) as [answer duration].
  cbn [snd] in Hduration.
  assert (Hw : forall locations : list (Location.t pyfloat),
    _last_request_time w + rate_limit_delay w
      <= _last_request_time
           (snd (locations,
                 with_call (_respect_rate_limit w) (request_for query w) duration))
    /\ _last_request_time
         (snd (locations,
               with_call (_respect_rate_limit w) (request_for query w) duration))
       <= now (snd (locations,
                    with_call (_respect_rate_limit w) (request_for query w) duration))).
  { intros locations. cbn.
    destruct (Z.ltb_spec (now w - _last_request_time w) (rate_limit_delay w)); lia. }
  destruct answer as [| | |[|] [results|]]; try apply Hw.
  destruct (mapM _ results); apply Hw.
Qed.

End GeocoderMore.

Import LocationFacts.

Lemma search_calls_once_witness :
  calls (snd (LocationService.search Z int_float silent (lit " Paris ") idle_world))
  = [request_for (lit " Paris ") idle_world].
Proof.
  apply (search_calls_once Z int_float silent (lit " Paris ") idle_world).
  reflexivity.
Defined.

(** A raw result without usable coordinates, and a transport that
    answers with it behind a good result. *)
Definition unmapped : Location.raw :=
  list_to_map
    [("display_name", Location.RScalar (SStr (lit "Nowhere")));
     ("lat", Location.RScalar (SStr (lit "north")));
     ("lon", Location.RScalar (SInt 0))].

Definition answers_two (r : request) (before : list request) : response * Z :=
  (Http true (Some [metropolis; unmapped]), 10).

Lemma search_all_or_nothing_witness :
  fst (LocationService.search Z int_float answers_two (lit "Metropolis") idle_world)
  = [].
Proof.
  apply (proj2 (search_all_or_nothing Z int_float answers_two (lit "Metropolis")
                  idle_world) [metropolis; unmapped] unmapped).
  - reflexivity.
  - right. left. reflexivity.
  - reflexivity.
Defined.

Lemma search_respects_rate_limit_witness :
  1000 <= _last_request_time
            (snd (LocationService.search Z int_float silent (lit " Paris ") idle_world)).
Proof.
  apply (search_respects_rate_limit Z int_float silent (lit " Paris ") idle_world).
  - reflexivity.
  - vm_compute. discriminate.
Defined.

End LocationMore.

(* ===================================================================== *)
(** * services/agent_service.py: streaming                                *)
(* ===================================================================== *)

Module TripGenieStream.

Import TripGenieAgent.

Section WithModel.

Variable SYSTEM_PROMPT : pystr.
Variable llm_invoke : list message -> pystr + (pystr * list tool_call).
Variable run_tool : tool_call -> pystr.
Variable recursion_limit : nat.
Variable recursion_error : pystr.

(** [self.app.stream(initial_state, stream_mode="values")] behind the
    input: the state after every node execution, and the text of the
    exception that ends the iteration, if one does. *)
Fixpoint events_from_agent (steps : nat) (state : list message)
  : list (list message) * option pystr :=
  match steps with
  | O => ([], Some recursion_error)
  | S steps' =>
      let state := state ++ _agent_node SYSTEM_PROMPT llm_invoke state in
      match tools_condition state with
      | ToEnd => ([state], None)
      | ToTools =>
          match steps' with
          | O => ([state], Some recursion_error)
          | S steps'' =>
              let state' := state ++ tool_node run_tool state in
              let '(events, raised) := events_from_agent steps'' state' in
              (state :: state' :: events, raised)
          end
      end
  end.

(** [message = event["messages"][-1]], kept unless it is a human or a
    system message. *)
Definition yielded (event : list message) : option message :=
  match last event with
  | Some (HumanMessage _) | Some (SystemMessage _) | None => None
  | Some message => Some message
  end.

(** Everything the generator yields, in order. *)
Definition stream_trip_plan (query : pystr) : list message :=
  let initial_state := [HumanMessage query] in
  let '(events, raised) := events_from_agent recursion_limit initial_state in
  omap yielded (initial_state :: events)
  ++ match raised with
     | Some e => [AIMessage (lit "Error: " ++ e) []]
     | None => []
     end.

End WithModel.

End TripGenieStream.

(* ===================================================================== *)
(** * Further properties of the planner                                   *)
(* ===================================================================== *)

Module AgentMore.

Import TripGenieAgent TripGenieStream AgentFacts.

Section PlannerMore.

Variable SYSTEM_PROMPT : pystr.
Variable llm_invoke : list message -> pystr + (pystr * list tool_call).
Variable run_tool : tool_call -> pystr.
Variable recursion_limit : nat.
Variable recursion_error : pystr.
Variable message_str : message -> pystr.

Abbreviation run := (invoke_from_agent SYSTEM_PROMPT llm_invoke run_tool recursion_error).
Abbreviation generate :=
  (generate_trip_plan SYSTEM_PROMPT llm_invoke run_tool recursion_limit
                      recursion_error message_str).
Abbreviation turn := (model_turn SYSTEM_PROMPT llm_invoke run_tool).
Abbreviation prompt := (with_system_prompt SYSTEM_PROMPT).
Abbreviation events := (events_from_agent SYSTEM_PROMPT llm_invoke run_tool recursion_error).
Abbreviation stream :=
  (stream_trip_plan SYSTEM_PROMPT llm_invoke run_tool recursion_limit recursion_error).

(** The model turn of an answer without tool calls ends the run. *)
Lemma answering_turn_ends (state : list message) (content : pystr) (steps : nat) :
  llm_invoke (prompt state) = inr (content, []) ->
  run (S steps) state = inr (state ++ [AIMessage content []]).
Proof.
  intros H. cbn [invoke_from_agent]. unfold _agent_node. rewrite H.
  unfold tools_condition. now rewrite last_snoc.
Qed.

(** X20. If, at a model turn within the step budget, the model answers
    without asking for a tool, [generate_trip_plan] returns the content
    of that answer, unchanged. *)
Theorem generate_trip_plan_returns_answer (query : pystr) (steps : nat)
    (state : list message) (content : pystr) :
  turn query steps state ->
  (steps < recursion_limit)%nat ->
  llm_invoke (prompt state) = inr (content, []) ->
  generate query = content.
Proof.
  intros Hturn Hsteps Hanswer. unfold generate_trip_plan.
  replace recursion_limit with (steps + S (recursion_limit - S steps))%nat by lia.
  rewrite (run_through_turn _ _ _ _ _ _ _ Hturn).
  rewrite (answering_turn_ends _ _ _ Hanswer). now rewrite last_snoc.
Qed.




Definition not_system (m : message) : Prop :=
  match m with
  | SystemMessage _ => False
  | _ => True
  end.

Lemma run_invariants (fuel : nat) :
  forall state result,
    run fuel state = inr result ->
    (exists more content, result = state ++ more ++ [AIMessage content []]
                          /\ Forall not_system more).
Proof.
  induction fuel as [fuel IH] using lt_wf_ind. intros state result.
  destruct fuel as [|fuel]; [discriminate|].
  cbn [invoke_from_agent]. unfold _agent_node.
  destruct (llm_invoke (prompt state)) as [e|[content calls]].
  - unfold tools_condition. rewrite last_snoc. intros [= <-].
    exists [], (error_reply e). split; [reflexivity|constructor].
  - unfold tools_condition. rewrite last_snoc.
    destruct calls as [|c calls].
    + intros [= <-]. exists [], content. split; [reflexivity|constructor].
    + destruct fuel as [|fuel]; [discriminate|].
      intros H. apply (IH fuel ltac:(lia)) in H as (more & final & -> & Hmore).
      exists ([AIMessage content (c :: calls)]
              ++ tool_node run_tool (state ++ [AIMessage content (c :: calls)])
              ++ more), final.
      split; [now rewrite <- !app_assoc|].
      apply Forall_app. split; [repeat constructor|].
      apply Forall_app. split; [|exact Hmore].
      unfold tool_node. rewrite last_snoc. apply Forall_map.
      apply Forall_forall. intros. exact I.
Qed.

Lemma finished_run_shape_aux (query : pystr) (result : list message) :
  run recursion_limit [HumanMessage query] = inr result ->
  exists more, result = HumanMessage query :: more ++ [AIMessage (generate query) []].
Proof.
  intros H. unfold generate_trip_plan. rewrite H.
  apply run_invariants in H as (more & content & -> & _).
  exists more. cbn [app]. now rewrite app_comm_cons, last_snoc.
Qed.


(** The events of a run end with its result; a run that raises does so
    after the same events. *)
Lemma events_of_run (fuel : nat) :
  forall state,
    match run fuel state with
    | inr result => exists before, events fuel state = (before ++ [result], None)
    | inl e => exists before, events fuel state = (before, Some e)
    end.
Proof.
  induction fuel as [fuel IH] using lt_wf_ind. intros state.
  destruct fuel as [|fuel]; [now exists []|].
  cbn [invoke_from_agent events_from_agent].
  destruct (tools_condition (state ++ _agent_node SYSTEM_PROMPT llm_invoke state)).
  - destruct fuel as [|fuel]; [now eexists|].
    specialize (IH fuel ltac:(lia)
      ((state ++ _agent_node SYSTEM_PROMPT llm_invoke state)
       ++ tool_node run_tool (state ++ _agent_node SYSTEM_PROMPT llm_invoke state))).
    destruct (run fuel _) as [e|result]; destruct IH as [before ->].
    + now eexists.
    + eexists (_ :: _ :: before). reflexivity.
  - now exists [].
Qed.

(** X23. Streaming and generating agree on the outcome.  When the run
    finishes, the last message that [stream_trip_plan] yields is the
    assistant message whose content [generate_trip_plan] returns; when
    the step budget is used up, the last message yielded is an assistant
    message "Error: ..." with the text of that error. *)
Theorem stream_ends_with_plan (query : pystr) :
  match run recursion_limit [HumanMessage query] with
  | inr _ => last (stream query) = Some (AIMessage (generate query) [])
  | inl e => last (stream query) = Some (AIMessage (lit "Error: " ++ e) [])
  end.
Proof.
  pose proof (events_of_run recursion_limit [HumanMessage query]) as Hev.
  unfold stream_trip_plan.
  destruct (run recursion_limit [HumanMessage query]) as [e|result] eqn:Hrun.
  - destruct Hev as [before ->]. now rewrite last_snoc.
  - destruct Hev as [before ->].
    destruct (finished_run_shape_aux query result Hrun) as (more & ->).
    rewrite app_nil_r.
    assert (Hy : yielded (HumanMessage query :: more ++ [AIMessage (generate query) []])
                 = Some (AIMessage (generate query) [])).
    { unfold yielded. now rewrite app_comm_cons, last_snoc. }
    rewrite (app_comm_cons before), omap_app. cbn [omap list_omap].
    rewrite Hy. apply last_snoc.
Qed.

End PlannerMore.

(** A model that asks for one search and then answers. *)
Definition answers_after_search (messages : list message)
  : pystr + (pystr * list tool_call) :=
  match last messages with
  | Some (ToolMessage _ _) => inr (lit "Day 1: Colosseum", [])
  | _ => inr ([], [search_call])
  end.

Lemma generate_trip_plan_returns_answer_witness :
  generate_trip_plan (lit "You are TripGenie.") answers_after_search no_results 25
    (lit "Recursion limit of 25 reached") plain_str (lit "Plan a trip to Rome")
  = lit "Day 1: Colosseum".
Proof.
  apply (generate_trip_plan_returns_answer (lit "You are TripGenie.")
           answers_after_search no_results 25 (lit "Recursion limit of 25 reached")
           plain_str (lit "Plan a trip to Rome") 2
           (([HumanMessage (lit "Plan a trip to Rome")]
             ++ [AIMessage [] [search_call]])
            ++ tool_node no_results
                 ([HumanMessage (lit "Plan a trip to Rome")]
                  ++ [AIMessage [] [search_call]]))).
  - apply turn_after_tools; [constructor|reflexivity|discriminate].
  - lia.
  - reflexivity.
Defined.


(** With two tool calls in one turn the stream shows the second tool
    result only: each event contributes its last message. *)
Definition second_call : tool_call :=
  {| call_id := lit "call_2"; tool_name := lit "duckduckgo_search";
     tool_args := lit "hotels Rome" |}.

Definition asks_twice (messages : list message) : pystr + (pystr * list tool_call) :=
  match last messages with
  | Some (ToolMessage _ _) => inr (lit "Day 1: Colosseum", [])
  | _ => inr ([], [search_call; second_call])
  end.

Example stream_shows_last_tool_result :
  stream_trip_plan (lit "You are TripGenie.") asks_twice no_results 25
    (lit "Recursion limit of 25 reached") (lit "Plan a trip to Rome")
  = [AIMessage [] [search_call; second_call];
     ToolMessage (lit "[]") (lit "call_2");
     AIMessage (lit "Day 1: Colosseum") []].
Proof. reflexivity. Qed.

End AgentMore.
